(** * PolySleuth: the anomaly-detection pipeline

    A shallow embedding of the scoring pipeline of the PolySleuth dashboard
    (App.tsx, services/polymarketService.ts, services/geminiService.ts)
    and the proofs of its specified properties.

    Numbers.  A JavaScript [number] that the program only ever builds from
    integer literals by [+] (the heuristic base score, the observation
    count), the result of [Math.round], and an epoch timestamp are integers
    and are modelled in [Z].  Every other [number] (sizes, prices, liquidity,
    running mean, sum of squared deviations, analyzer score) is modelled as an
    exact rational in [Q]: binary64 rounding is outside the model, and so
    are NaN and the infinities, except in [calculateDynamicZScore_number],
    which follows them through [calculateDynamicZScore].  [Math.sqrt] is a
    platform primitive and is a parameter of the definitions that call
    it. *)

From Stdlib Require Import QArith Qround Qabs Lqa ZArith Lia.
From Stdlib Require Import String Ascii.
From stdpp Require Import gmap strings list pretty sorting relations.

#[local] Set Warnings "-clear-no-such-hyp".
Local Open Scope Z_scope.

(** ** The JavaScript primitives the program uses *)

Module JS.

(** The outcome of running a piece of code that may [throw]. *)
Inductive completion (A : Type) : Type :=
| Returns (a : A)
| Throws (message : string).
Arguments Returns {A} a.
Arguments Throws {A} message.

(** [Math.round]: the nearest integer, a tie going towards plus infinity. *)
Definition Math_round (x : Q) : Z := Qfloor (x + (1 # 2))%Q.

(** [Math.min] on integers. *)
Definition Math_min (a b : Z) : Z := Z.min a b.

(** The comparison operators on rationals, as booleans. *)
Definition gt (a b : Q) : bool := if Qlt_le_dec b a then true else false.
Definition lt (a b : Q) : bool := gt b a.
Definition strict_eq (a b : Q) : bool := Qeq_bool a b.

(** [String.prototype.toLowerCase], on the ASCII letters. *)
Definition lower_ascii (c : ascii) : ascii :=
  let n := nat_of_ascii c in
  if (65 <=? n)%nat && (n <=? 90)%nat then ascii_of_nat (n + 32) else c.

Fixpoint toLowerCase (s : string) : string :=
  match s with
  | EmptyString => EmptyString
  | String c r => String (lower_ascii c) (toLowerCase r)
  end.

(** [Number.prototype.toFixed(1)], for [|x| < 10^21]: the decimal digits of
    the integer [n] that minimises [|n / 10 - x|] (the larger one on a tie),
    with a point before the last digit, and a leading minus sign for a
    negative [x]. *)
Definition toFixed1 (x : Q) : string :=
  let n := Qfloor (Qabs x * 10 + (1 # 2))%Q in
  ((if lt x 0 then "-" else "") ++
   pretty (n / 10) ++ "." ++ pretty (n mod 10))%string.

(** [Array.from(new Set(l))]: the distinct elements of [l] in the order of
    their first occurrence. *)
Fixpoint Set_values (seen l : list string) : list string :=
  match l with
  | [] => []
  | x :: r =>
      if bool_decide (x ∈ seen) then Set_values seen r
      else x :: Set_values (x :: seen) r
  end.

(** [new Map(entries)]: a key keeps the position of its first insertion, a
    later entry with the same key overwrites the value in place. *)
Fixpoint Map_set {V} (k : string) (v : V) (m : list (string * V))
    : list (string * V) :=
  match m with
  | [] => [(k, v)]
  | (k', v') :: r =>
      if bool_decide (k' = k) then (k, v) :: r else (k', v') :: Map_set k v r
  end.

Definition Map_from {V} (entries : list (string * V)) : list (string * V) :=
  fold_left (fun m e => Map_set (fst e) (snd e) m) entries [].

Definition Map_values {V} (m : list (string * V)) : list V := map snd m.

(** [Array.prototype.sort(cmp)]: a stable sort; [cmp a b > 0] puts [a]
    after [b].  Every stable sort returns the same array when [cmp] is a
    consistent comparator; insertion from the right is the one written
    here. *)
Fixpoint sort_insert {A} (cmp : A -> A -> Z) (x : A) (l : list A) : list A :=
  match l with
  | [] => [x]
  | y :: r => if cmp x y <=? 0 then x :: y :: r else y :: sort_insert cmp x r
  end.

Definition Array_sort {A} (cmp : A -> A -> Z) (l : list A) : list A :=
  foldr (sort_insert cmp) [] l.

End JS.
Import JS.

(** ** types.ts *)

Record PolymarketMarket := {
  market_id : string;
  gammaId : string;
  question : string;
  slug : string;
  endDate : string;
  volume : Q;
  liquidity : Q;
  outcomes : list string;
  outcomePrices : list string
}.

Inductive Side := BUY | SELL.

Record Trade := {
  trade_id : string;
  marketId : string;
  marketQuestion : string;
  outcomeIndex : Z;
  outcomeLabel : string;
  side : Side;
  price : Q;
  size : Q;
  timestamp : Z;
  makerAddress : string;
  transactionHash : string
}.

Record MarketStats := {
  count : Z;
  meanSize : Q;
  m2Size : Q;
  lastUpdate : Z
}.

Inductive SuspicionLevel := LOW | MEDIUM | HIGH | CRITICAL.

Record WalletStats := {
  totalTrades : Z;
  winRate : Q;
  accountAgeDays : Q;
  isWhale : option bool
}.

Record SuspiciousActivity := {
  alert_id : string;
  trade : Trade;
  suspicionScore : Z;
  level : SuspicionLevel;
  reasoning : string;
  factors : list string;
  walletStats : option WalletStats
}.

Record GeminiAnalysisResponse := {
  g_suspicionScore : Q;
  g_reasoning : string;
  riskLevel : SuspicionLevel;
  g_factors : list string
}.

(** ** App.tsx: the running statistics tracker *)

(** [updateMarketStats]; [now] is the reading of [Date.now()].  The map is
    the content of [marketStatsRef]; the function returns the new snapshot
    and the map with the snapshot stored. *)
Definition updateMarketStats (now : Z) (marketId : string) (size : Q)
    (marketStatsRef : gmap string MarketStats)
    : MarketStats * gmap string MarketStats :=
  let stats :=
    default {| count := 0; meanSize := 0; m2Size := 0; lastUpdate := now |}
            (marketStatsRef !! marketId) in
  let count' := count stats + 1 in
  let delta := (size - meanSize stats)%Q in
  let meanSize' := (meanSize stats + delta / inject_Z count')%Q in
  let m2Size' := (m2Size stats + delta * (size - meanSize'))%Q in
  let newStats :=
    {| count := count'; meanSize := meanSize'; m2Size := m2Size';
       lastUpdate := now |} in
  (newStats, <[marketId := newStats]> marketStatsRef).

(** Feeding a sequence of observations of one market in arrival order, each
    with the clock reading of its call. *)
Fixpoint feed (marketId : string) (obs : list (Z * Q))
    (ref : gmap string MarketStats) : gmap string MarketStats :=
  match obs with
  | [] => ref
  | (now, size) :: r =>
      feed marketId r (snd (updateMarketStats now marketId size ref))
  end.

(** The batch recomputation the tracker is compared with: the arithmetic
    mean and the population variance of a sample. *)
Fixpoint Qsum (l : list Q) : Q :=
  match l with
  | [] => 0%Q
  | x :: r => (x + Qsum r)%Q
  end.

Definition batch_mean (l : list Q) : Q :=
  (Qsum l / inject_Z (Z.of_nat (length l)))%Q.

Definition batch_variance (l : list Q) : Q :=
  let mu := batch_mean l in
  (Qsum (map (fun x => (x - mu) * (x - mu))%Q l)
   / inject_Z (Z.of_nat (length l)))%Q.

(** ** services/polymarketService.ts: the heuristic scorer *)

Definition KNOWN_INSIDER : string := "0x31a56e9E690c621eD21De08Cb559e9524Cdb8eD9".

(** [generateBacktestScenario]; [now] is the reading of [Date.now()]. *)
Definition generateBacktestScenario (now : Z) : Trade :=
  {| trade_id := "sim-maduro-whale";
     marketId := "0x4b7e56993f4e304602f90119109002231b67039031c6e10817094033324546";
     marketQuestion := "[DEMO] Venezuelan Election 2024 Winner?";
     outcomeIndex := 0;
     outcomeLabel := "Maduro";
     side := BUY;
     price := 0.12;
     size := 35000;
     timestamp := now - 14400000;
     makerAddress := "0x31a56e9E690c621eD21De08Cb559e9524Cdb8eD9";
     transactionHash := "0xBacktestScenarioHash123" |}.




Section Scorer.

(** [Math.sqrt]. *)
Variable Math_sqrt : Q -> Q.

(** [calculateDynamicZScore]; an absent [stats] argument is [None]. *)
Definition calculateDynamicZScore (size : Q) (stats : option MarketStats) : Q :=
  match stats with
  | None => ((size - 200) / 300)%Q
  | Some stats =>
      if count stats <? 5 then ((size - 200) / 300)%Q
      else
        let stdDev := Math_sqrt (m2Size stats / inject_Z (count stats))%Q in
        if strict_eq stdDev 0 then 0%Q
        else ((size - meanSize stats) / stdDev)%Q
  end.



(** [analyzeTradeHeuristics]: the accumulator pair is ([baseScore],
    [factors]); an absent [isWhale] argument is [None]. *)
Definition analyzeTradeHeuristics (trade : Trade) (market : PolymarketMarket)
    (stats : option MarketStats) (isWhale : option bool) : Z * list string :=
  let factors : list string := [] in
  let baseScore := 0 in
  let zScore := calculateDynamicZScore (size trade) stats in
  let '(baseScore, factors) :=
    if gt zScore 3
    then (baseScore + 35, factors ++ [("High Size Z=" ++ toFixed1 zScore)%string])
    else (baseScore, factors) in
  let '(baseScore, factors) :=
    if gt (liquidity market) 0 && gt (size trade / liquidity market) 0.01
    then (baseScore + 25, factors ++ ["Significant Liquidity Impact"%string])
    else (baseScore, factors) in
  let '(baseScore, factors) :=
    if lt (price trade) 0.20 && gt (size trade) 200
    then (baseScore + 20, factors ++ ["Speculative Accumulation"%string])
    else (baseScore, factors) in
  let '(baseScore, factors) :=
    if default false isWhale
    then (baseScore + 30, factors ++ ["Verified Whale Activity"%string])
    else (baseScore, factors) in
  let '(baseScore, factors) :=
    if bool_decide (toLowerCase (makerAddress trade) = toLowerCase KNOWN_INSIDER)
    then (baseScore + 50, factors ++ ["Blacklisted/Known Insider"%string])
    else (baseScore, factors) in
  (baseScore, factors).

End Scorer.

(** The two oracle fetchers.  [holders] is the answer of the holders
    endpoint for a market ([None] when the request fails or the answer is
    not an array), [firstSeen] the timestamp of the first activity record of
    an address ([None] when there is none or the request fails). *)
Definition fetchMarketWhales (holders : string -> option (list string))
    (marketId : string) (useSimulation : bool) : list string :=
  if useSimulation then []
  else match holders marketId with
       | Some hs => map toLowerCase (take 10 hs)
       | None => []
       end.

Definition fetchWalletStats (firstSeen : string -> option Z) (now : Z)
    (address : string) (useSimulation : bool) : option WalletStats :=
  if useSimulation
  then Some {| totalTrades := 50; winRate := 0.65; accountAgeDays := 2;
               isWhale := None |}
  else match firstSeen address with
       | Some t =>
           let firstSeen := if t <? 10000000000 then t * 1000 else t in
           Some {| totalTrades := -1; winRate := 0;
                   accountAgeDays := (inject_Z (now - firstSeen) / 86400000)%Q;
                   isWhale := None |}
       | None => None
       end.

(** ** services/geminiService.ts: the suspicion analyzer *)

(** What the prompt interpolates.  The text of the prompt is not modelled:
    the analyzer is an oracle that receives these facts. *)
Record PromptFacts := {
  p_market : PolymarketMarket;
  p_trade : Trade;
  p_walletAgeDays : option Q;
  p_flags : list string
}.

(** The [catch] branch, identical in both revisions of the file. *)
Definition heuristicFallback (preliminaryFactors : list string)
    : GeminiAnalysisResponse :=
  let heuristicScore := Z.of_nat (length preliminaryFactors) * 15 in
  {| g_suspicionScore := inject_Z (Math_min 50 heuristicScore);
     g_reasoning := "AI Unavailable - Heuristic Estimate Only";
     riskLevel := if 60 <? heuristicScore then HIGH else MEDIUM;
     g_factors := take 3 preliminaryFactors |}.

Section Analyzer.

(** [ai.models.generateContent(...)] followed by [response.text]: the text
    of the answer, the empty string when there is none, or a rejection. *)
Variable generateContent : PromptFacts -> completion string.

(** [JSON.parse(cleanJson(text)) as GeminiAnalysisResponse]: [Returns] for
    a text that parses to an object with the four fields of the response
    schema the request asks for, [Throws] for a text that [JSON.parse]
    rejects.  A text that parses to any other value (an object without
    [factors], [null]) is handed on by the code as it is, without the
    fallback; the record type has no value for such an answer, and no
    statement below is about one. *)
Variable parseResponse : string -> completion GeminiAnalysisResponse.

(** The body of the [try] block, shared by the two revisions. *)
Definition tryAnalyze (prompt : PromptFacts) : completion GeminiAnalysisResponse :=
  match generateContent prompt with
  | Throws e => Throws e
  | Returns text =>
      if bool_decide (text = ""%string) then Throws "No response from Gemini"
      else parseResponse text
  end.

Definition catchFallback (preliminaryFactors : list string)
    (attempt : completion GeminiAnalysisResponse)
    : completion GeminiAnalysisResponse :=
  match attempt with
  | Returns r => Returns r
  | Throws _ => Returns (heuristicFallback preliminaryFactors)
  end.

(** [analyzeSuspicion] of services/geminiService.ts: the wallet age is
    interpolated as ["Unknown"] when [walletStats] is absent. *)
Definition analyzeSuspicion (trade : Trade) (market : PolymarketMarket)
    (preliminaryFactors : list string) (walletStats : option WalletStats)
    : completion GeminiAnalysisResponse :=
  let prompt :=
    {| p_market := market; p_trade := trade;
       p_walletAgeDays := accountAgeDays <$> walletStats;
       p_flags := preliminaryFactors |} in
  catchFallback preliminaryFactors (tryAnalyze prompt).

(** [analyzeSuspicion] of the FACTS_JSON revision: the prompt reads
    [walletStats.accountAgeDays] before the [try] block is entered. *)
Definition analyzeSuspicion_factsJson (trade : Trade) (market : PolymarketMarket)
    (preliminaryFactors : list string) (walletStats : option WalletStats)
    : completion GeminiAnalysisResponse :=
  match walletStats with
  | None =>
      Throws "TypeError: Cannot read properties of undefined (reading 'accountAgeDays')"
  | Some w =>
      let prompt :=
        {| p_market := market; p_trade := trade;
           p_walletAgeDays := Some (accountAgeDays w);
           p_flags := preliminaryFactors |} in
      catchFallback preliminaryFactors (tryAnalyze prompt)
  end.

End Analyzer.

(** ** App.tsx: evaluation of one trade *)

(** The external calls an evaluation makes, in order. *)
Inductive OracleCall :=
| FetchMarketWhales (marketId : string)
| FetchWalletStats (address : string)
| AnalyzeSuspicion (tradeId : string).

(** The refs of the component, and the trace of external calls. *)
Record AppState := {
  processedTradeIds : gset string;
  marketStatsRef : gmap string MarketStats;
  oracleTrace : list OracleCall
}.

Definition initialState : AppState :=
  {| processedTradeIds := ∅; marketStatsRef := ∅; oracleTrace := [] |}.

(** The level thresholds and the rounding of [evaluateTrade]. *)
Definition levelOf (finalScore : Q) : SuspicionLevel :=
  if gt finalScore 85 then CRITICAL
  else if gt finalScore 65 then HIGH
  else if gt finalScore 40 then MEDIUM
  else LOW.

Definition fuse (baseScore : Z) (analyzerScore : Q) : Z * SuspicionLevel :=
  let finalScore := ((inject_Z baseScore + analyzerScore) / 2)%Q in
  (Math_round finalScore, levelOf finalScore).

Section Evaluate.

Variable Math_sqrt : Q -> Q.
Variable simulationMode : bool.
Variable holders : string -> option (list string).
Variable firstSeen : string -> option Z.
Variable now : Z.
(** The imported [analyzeSuspicion]. *)
Variable analyze : Trade -> PolymarketMarket -> list string ->
                   option WalletStats -> completion GeminiAnalysisResponse.

Definition evaluateTrade (trade : Trade) (market : PolymarketMarket)
    (st : AppState) : completion (option SuspiciousActivity) * AppState :=
  if bool_decide (trade_id trade ∈ processedTradeIds st) then (Returns None, st)
  else
    let processed := processedTradeIds st ∪ {[trade_id trade]} in
    let '(stats, statsRef) :=
      updateMarketStats now (market_id market) (size trade) (marketStatsRef st) in
    let '(isWhale, trace) :=
      if negb simulationMode
      then
        let whales := fetchMarketWhales holders (market_id market) simulationMode in
        (bool_decide (toLowerCase (makerAddress trade) ∈ whales),
         oracleTrace st ++ [FetchMarketWhales (market_id market)])
      else (false, oracleTrace st) in
    let '(baseScore, factors) :=
      analyzeTradeHeuristics Math_sqrt trade market (Some stats) (Some isWhale) in
    if 10 <? baseScore then
      let realWalletStats :=
        fetchWalletStats firstSeen now (makerAddress trade) simulationMode in
      let trace :=
        trace ++ [FetchWalletStats (makerAddress trade);
                  AnalyzeSuspicion (trade_id trade)] in
      let st' := {| processedTradeIds := processed; marketStatsRef := statsRef;
                    oracleTrace := trace |} in
      match analyze trade market factors realWalletStats with
      | Throws e => (Throws e, st')
      | Returns analysis =>
          let '(score, level) := fuse baseScore (g_suspicionScore analysis) in
          (Returns (Some
             {| alert_id := trade_id trade;
                trade := trade;
                suspicionScore := score;
                level := level;
                reasoning := g_reasoning analysis;
                factors := Set_values [] (factors ++ g_factors analysis);
                walletStats :=
                  (fun w => {| totalTrades := totalTrades w; winRate := winRate w;
                               accountAgeDays := accountAgeDays w;
                               isWhale := Some isWhale |}) <$> realWalletStats |}),
           st')
      end
    else
      (Returns None,
       {| processedTradeIds := processed; marketStatsRef := statsRef;
          oracleTrace := trace |}).

(** The callback [runCycle] hands to [processQueue]. *)
Definition evaluateCandidate (currentMarkets : list PolymarketMarket)
    (trade : Trade) (st : AppState)
    : completion (option SuspiciousActivity) * AppState :=
  match List.find (fun m => bool_decide (market_id m = marketId trade)) currentMarkets with
  | Some market => evaluateTrade trade market st
  | None => (Returns None, st)
  end.

(** A sequence of evaluations, each on the state the previous one left; the
    alerts are those of the evaluations that returned one. *)
Fixpoint evaluateAll (jobs : list (Trade * PolymarketMarket)) (st : AppState)
    : list SuspiciousActivity * AppState :=
  match jobs with
  | [] => ([], st)
  | (trade, market) :: r =>
      let '(c, st1) := evaluateTrade trade market st in
      let '(alerts, st2) := evaluateAll r st1 in
      (match c with Returns (Some a) => a :: alerts | _ => alerts end, st2)
  end.

(** The whale flag, the statistics and the scorer result of an evaluation
    that passes the dedup gate, named for the statements below. *)
Definition whaleFlag (trade : Trade) (market : PolymarketMarket) : bool :=
  negb simulationMode &&
  bool_decide (toLowerCase (makerAddress trade)
               ∈ fetchMarketWhales holders (market_id market) simulationMode).

Definition postUpdateStats (trade : Trade) (market : PolymarketMarket)
    (st : AppState) : MarketStats :=
  fst (updateMarketStats now (market_id market) (size trade) (marketStatsRef st)).

Definition scored (trade : Trade) (market : PolymarketMarket) (st : AppState)
    : Z * list string :=
  analyzeTradeHeuristics Math_sqrt trade market
    (Some (postUpdateStats trade market st)) (Some (whaleFlag trade market)).

(** The scorer run as the specification words it: against the statistics
    the market had before this trade (none for a new market). *)
Definition scoredAgainstPreUpdate (trade : Trade) (market : PolymarketMarket)
    (st : AppState) : Z * list string :=
  analyzeTradeHeuristics Math_sqrt trade market
    (marketStatsRef st !! market_id market) (Some (whaleFlag trade market)).

End Evaluate.

(** ** App.tsx: the alert ledger *)

(** The comparator of the sort: [b.suspicionScore - a.suspicionScore ||
    b.trade.timestamp - a.trade.timestamp]. *)
Definition alertCompare (a b : SuspiciousActivity) : Z :=
  let d := suspicionScore b - suspicionScore a in
  if d =? 0 then timestamp (trade b) - timestamp (trade a) else d.

(** The updater passed to [setAlerts]. *)
Definition mergeAlerts (validAlerts prev : list SuspiciousActivity)
    : list SuspiciousActivity :=
  let next := validAlerts ++ prev in
  let unique := Map_values (Map_from (map (fun item => (alert_id item, item)) next)) in
  take 50 (Array_sort alertCompare unique).

(** ** App.tsx: the bounded concurrent evaluator

    [processQueue] runs on one thread; its workers interleave only at
    [await fn(item)].  A call [fn(item)] is split at its first suspension:
    [start] is the synchronous part, which may read and write the shared
    refs, and [settle] is the outcome of the promise it leaves in flight.
    Items and results are objects, hence truthy for the tests [if (item)]
    and [if (result)]; a [null] result is [None]. *)

Section ProcessQueue.

Context {T R S K : Type}.
Variable start : T -> S -> K * S.
Variable settle : K -> completion (option R).

Record PoolState := {
  queue : list T;
  inFlight : list K;
  results : list R;
  shared : S
}.

(** [try { result = await fn(item); if (result) results.push(result) }
    catch (e) { console.error(e) }]: what one settled call appends. *)
Definition pushed (c : completion (option R)) : list R :=
  match c with
  | Returns (Some r) => [r]
  | Returns None => []
  | Throws _ => []
  end.

(** The head of a worker's [while] loop: shift the next item and start it,
    or leave the loop when the queue is empty. *)
Definition workerLoop (st : PoolState) : PoolState :=
  match queue st with
  | [] => st
  | item :: rest =>
      let '(k, s) := start item (shared st) in
      {| queue := rest; inFlight := inFlight st ++ [k];
         results := results st; shared := s |}
  end.

(** [Array(Math.min(items.length, concurrency)).fill(null).map(() =>
    worker())]: each worker runs up to its first [await]. *)
Definition spawn (items : list T) (concurrency : nat) (s : S) : PoolState :=
  Nat.iter (Nat.min (length items) concurrency) workerLoop
    {| queue := items; inFlight := []; results := []; shared := s |}.

(** The promise at position [i] of the calls in flight settles; its worker
    records the outcome and goes round its loop. *)
Definition settleAt (i : nat) (st : PoolState) : option PoolState :=
  match inFlight st !! i with
  | None => None
  | Some k =>
      Some (workerLoop
              {| queue := queue st; inFlight := delete i (inFlight st);
                 results := results st ++ pushed (settle k);
                 shared := shared st |})
  end.

Definition poolStep (st st' : PoolState) : Prop :=
  exists i, settleAt i st = Some st'.

(** [Promise.all] resolves when every worker has left its loop. *)
Definition finished (st : PoolState) : Prop := inFlight st = [].

(** A run under a given order of settlement. *)
Fixpoint runSchedule (schedule : list nat) (st : PoolState) : option PoolState :=
  match schedule with
  | [] => Some st
  | i :: r => st' ← settleAt i st; runSchedule r st'
  end.

(** The sequential reference: every item started in queue order. *)
Fixpoint startAll (items : list T) (s : S) : list K * S :=
  match items with
  | [] => ([], s)
  | item :: rest =>
      let '(k, s1) := start item s in
      let '(ks, s2) := startAll rest s1 in
      (k :: ks, s2)
  end.

Definition alertsOf (ks : list K) : list R :=
  concat (map (fun k => pushed (settle k)) ks).

(** What relates a pool state to the sequential reference: the items that
    left the queue are a prefix of the input, their calls are the settled
    ones and those in flight, the shared state is the one the prefix left,
    the results are those of the settled calls, and a worker is in flight
    as long as the queue is not empty. *)
Definition poolInv (items : list T) (s0 : S) (st : PoolState) : Prop :=
  exists prefix settled,
    items = prefix ++ queue st /\
    fst (startAll prefix s0) ≡ₚ settled ++ inFlight st /\
    shared st = snd (startAll prefix s0) /\
    results st ≡ₚ alertsOf settled /\
    (inFlight st = [] -> queue st = []).

End ProcessQueue.

Arguments PoolState : clear implicits.

(** ** Inputs used to run the model *)

(** A rational square root to compute with: exact on the squares of
    rationals, rounded down to 52 binary places otherwise. *)
Definition sqrt52 (x : Q) : Q :=
  let d := Z.pos (Qden x) in
  Qmake (Z.sqrt (Qnum x * d * 4 ^ 52)) (Pos.mul (Qden x) (2 ^ 52)).

Definition demoMarket : PolymarketMarket :=
  {| market_id := "0x4b7e56993f4e304602f90119109002231b67039031c6e10817094033324546";
     gammaId := "1";
     question := "[DEMO] Venezuelan Election 2024 Winner?";
     slug := "venezuela";
     endDate := "2024-07-28";
     volume := 12500000;
     liquidity := 450000;
     outcomes := ["Maduro"; "Gonzalez"]%string;
     outcomePrices := ["0.12"; "0.88"]%string |}.

Definition quietTrade (tid : string) (sz : Q) (ts : Z) : Trade :=
  {| trade_id := tid;
     marketId := market_id demoMarket;
     marketQuestion := question demoMarket;
     outcomeIndex := 1;
     outcomeLabel := "Gonzalez";
     side := SELL;
     price := 0.88;
     size := sz;
     timestamp := ts;
     makerAddress := "0x7b21000000000000000000000000000000009fA1";
     transactionHash := "0xabc" |}.

Definition sampleAlert (aid : string) (score ts : Z) : SuspiciousActivity :=
  {| alert_id := aid;
     trade := quietTrade aid 500 ts;
     suspicionScore := score;
     level := snd (fuse score (inject_Z score));
     reasoning := "";
     factors := [];
     walletStats := None |}.

(** ** Invariants and specification-level definitions *)

(** The statistics of a market before its first observation. *)
Definition freshStats (now : Z) : MarketStats :=
  {| count := 0; meanSize := 0; m2Size := 0; lastUpdate := now |}.

Fixpoint Qsumsq (l : list Q) : Q :=
  match l with
  | [] => 0%Q
  | x :: r => (x * x + Qsumsq r)%Q
  end.

(** What the tracker maintains about the sample [xs] it has seen: the
    count, the sum through the mean, and the sum of squares through M2. *)
Definition welford_inv (s : MarketStats) (xs : list Q) : Prop :=
  count s = Z.of_nat (length xs) /\
  (inject_Z (count s) * meanSize s == Qsum xs)%Q /\
  (m2Size s == Qsumsq xs - inject_Z (count s) * meanSize s * meanSize s)%Q.

(** Score fusion as the specification words it: the level is read off the
    rounded final score. *)
Definition levelOfRounded (finalScore : Z) : SuspicionLevel :=
  if 85 <? finalScore then CRITICAL
  else if 65 <? finalScore then HIGH
  else if 40 <? finalScore then MEDIUM
  else LOW.

Definition fuse_spec (baseScore : Z) (analyzerScore : Q) : Z * SuspicionLevel :=
  let finalScore := Math_round ((inject_Z baseScore + analyzerScore) / 2)%Q in
  (finalScore, levelOfRounded finalScore).

(** ** A demo run: simulation mode, the analyzer down *)

Definition analyzerDown : PromptFacts -> completion string :=
  fun _ => Throws "503 Service Unavailable".

Definition parseNothing : string -> completion GeminiAnalysisResponse :=
  fun _ => Throws "SyntaxError".

Definition noHolders : string -> option (list string) := fun _ => None.

Definition noActivity : string -> option Z := fun _ => None.

Definition demoNow : Z := 1700000000000.

Definition analyzeOffline := analyzeSuspicion analyzerDown parseNothing.

Definition evaluateDemo :=
  evaluateTrade sqrt52 true noHolders noActivity demoNow analyzeOffline.

Definition evaluateAllDemo :=
  evaluateAll sqrt52 true noHolders noActivity demoNow analyzeOffline.

(** Four unremarkable trades of size 500 in the demo market, then one of
    size 2000. *)
Definition fourQuietTrades : list (Trade * PolymarketMarket) :=
  [(quietTrade "t1" 500 1, demoMarket); (quietTrade "t2" 500 2, demoMarket);
   (quietTrade "t3" 500 3, demoMarket); (quietTrade "t4" 500 4, demoMarket)].

Definition stateAfterFour : AppState :=
  snd (evaluateAllDemo fourQuietTrades initialState).

Definition fifthTrade : Trade := quietTrade "t5" 2000 5.

(** ** The order and the winners of the alert ledger *)

(** Score descending, then trade timestamp descending. *)
Definition ranksBefore (a b : SuspiciousActivity) : Prop :=
  suspicionScore b < suspicionScore a \/
  (suspicionScore a = suspicionScore b /\
   timestamp (trade b) <= timestamp (trade a)).

(** The value of the last entry with key [k]. *)
Fixpoint lastWithKey {V} (k : string) (entries : list (string * V)) : option V :=
  match entries with
  | [] => None
  | (k', v) :: r =>
      match lastWithKey k r with
      | Some w => Some w
      | None => if bool_decide (k' = k) then Some v else None
      end
  end.

Definition lastAlertWithId (k : string) (l : list SuspiciousActivity)
    : option SuspiciousActivity :=
  lastWithKey k (map (fun item => (alert_id item, item)) l).


(** ** A live batch: three candidates, the analyzer down, one wallet known *)

Definition insiderActivity (address : string) : option Z :=
  if bool_decide (address = KNOWN_INSIDER) then Some 1699000000 else None.

(** The callback of [runCycle] in live mode, with the FACTS_JSON revision of
    the analyzer. *)
Definition liveEvaluate : Trade -> AppState ->
    completion (option SuspiciousActivity) * AppState :=
  evaluateCandidate sqrt52 false noHolders insiderActivity demoNow
    (analyzeSuspicion_factsJson analyzerDown parseNothing) [demoMarket].

Definition liveSettle (c : completion (option SuspiciousActivity))
    : completion (option SuspiciousActivity) := c.

Definition liveCandidates : list Trade :=
  [generateBacktestScenario demoNow; quietTrade "big" 9000 7;
   quietTrade "small" 500 8].

(** ** Definitions for the further properties *)

(** Updates of several markets in arrival order: market, clock reading,
    size. *)
Fixpoint feedAll (updates : list (string * Z * Q))
    (ref : gmap string MarketStats) : gmap string MarketStats :=
  match updates with
  | [] => ref
  | (marketId, now, size) :: r =>
      feedAll r (snd (updateMarketStats now marketId size ref))
  end.

(** The sizes observed for one market, in arrival order. *)
Fixpoint observationsOf (marketId : string) (updates : list (string * Z * Q))
    : list Q :=
  match updates with
  | [] => []
  | (m, _, size) :: r =>
      if bool_decide (m = marketId) then size :: observationsOf marketId r
      else observationsOf marketId r
  end.

(** The order of the enum [SuspicionLevel]. *)
Definition levelRank (l : SuspicionLevel) : Z :=
  match l with LOW => 0 | MEDIUM => 1 | HIGH => 2 | CRITICAL => 3 end.

(** The trade ids for which the analyzer was called, read off the trace. *)
Fixpoint analyzedIds (trace : list OracleCall) : list string :=
  match trace with
  | [] => []
  | AnalyzeSuspicion tid :: r => tid :: analyzedIds r
  | _ :: r => analyzedIds r
  end.

(** The addresses for which the wallet oracle was called. *)
Fixpoint walletCalls (trace : list OracleCall) : list string :=
  match trace with
  | [] => []
  | FetchWalletStats a :: r => a :: walletCalls r
  | _ :: r => walletCalls r
  end.

(** The markets for which the holders oracle was called. *)
Fixpoint whaleCalls (trace : list OracleCall) : list string :=
  match trace with
  | [] => []
  | FetchMarketWhales m :: r => m :: whaleCalls r
  | _ :: r => whaleCalls r
  end.

(** An analyzer that answers with one new tag and one tag the scorer also
    produces. *)
Definition analyzeTagged (trade : Trade) (market : PolymarketMarket)
    (preliminaryFactors : list string) (walletStats : option WalletStats)
    : completion GeminiAnalysisResponse :=
  Returns {| g_suspicionScore := 70;
             g_reasoning := "Fresh wallet, long odds";
             riskLevel := HIGH;
             g_factors := ["Fresh Wallet"; "Blacklisted/Known Insider"]%string |}.

(** Fifty-one alerts with the ids and scores 0 to 50. *)
Definition manyAlerts : list SuspiciousActivity :=
  map (fun i => sampleAlert (pretty i) (Z.of_nat i) (Z.of_nat i)) (seq 0 51).

(** ** services/polymarketService.ts: proxy mode and the data feed *)

(** [localStorage] is a map from keys to strings; [getItem] of a missing key
    is [null]. *)
Definition getProxyState (localStorage : gmap string string) : bool :=
  bool_decide (localStorage !! "ps_local_proxy"%string = Some "true"%string).

Definition setLocalProxyMode (enabled : bool) (localStorage : gmap string string)
    : gmap string string :=
  <["ps_local_proxy"%string := if enabled then "true"%string else "false"%string]>
    localStorage.

Record BaseUrls := { gamma : string; data : string }.

Definition getBaseUrls (localStorage : gmap string string) : BaseUrls :=
  if getProxyState localStorage
  then {| gamma := "http://localhost:8011/proxy";
          data := "http://localhost:8010/proxy" |}
  else {| gamma := "https://gamma-api.polymarket.com";
          data := "https://data-api.polymarket.com" |}.

(** What the program reads of a [Response]: [ok], [status] and the outcome
    of [text()]. *)
Record Response := {
  ok : bool;
  status : Z;
  text : completion string
}.

(** A record of the trades endpoint.  Fields the code passes to [parseInt]
    and [parseFloat] are kept as the text they print as; [timestamp] is used
    as a number.  [outcome], [side] and [proxyWallet] may be missing. *)
Record RawTrade := {
  raw_transactionHash : string;
  raw_outcomeIndex : string;
  raw_timestamp : Z;
  raw_conditionId : string;
  raw_outcome : option string;
  raw_side : option Side;
  raw_price : string;
  raw_size : string;
  raw_proxyWallet : option string;
  raw_maker_address : string
}.

(** [a || b] on an optional string: the empty string is falsy too. *)
Definition orString (a : option string) (b : string) : string :=
  match a with
  | Some s => if bool_decide (s = ""%string) then b else s
  | None => b
  end.

Definition WINDOW_MS : Z := 86400000.

Section DataFeed.

(** [fetch], [encodeURIComponent], [response.json()] of the trades
    endpoint ([None] when the answer is not an array), [parseFloat] and
    [parseInt]. *)
Variable fetch : string -> completion Response.
Variable encodeURIComponent : string -> string.
Variable tradesJson : Response -> completion (option (list RawTrade)).
Variable parseFloat : string -> Q.
Variable parseInt : string -> Z.

Definition PROXIES : list (string -> string) :=
  [ (fun u => "https://corsproxy.io/?" ++ encodeURIComponent u)%string;
    (fun u => "https://api.codetabs.com/v1/proxy?quest=" ++ encodeURIComponent u)%string;
    (fun u => "https://api.allorigins.win/raw?url=" ++ encodeURIComponent u)%string ].

(** The [for] loop over the public proxies. *)
Fixpoint tryProxies (proxies : list (string -> string)) (url : string)
    : completion Response :=
  match proxies with
  | [] => Throws "CORS Blocked"
  | proxyGen :: rest =>
      match fetch (proxyGen url) with
      | Returns response =>
          if ok response then Returns response else tryProxies rest url
      | Throws _ => tryProxies rest url
      end
  end.

Definition fetchWithCorsFallback (localStorage : gmap string string)
    (url : string) : completion Response :=
  let isLocal := getProxyState localStorage in
  if isLocal then
    match fetch url with
    | Throws e => Throws e
    | Returns response =>
        if negb (ok response) then
          let errorBody :=
            match text response with
            | Returns body => body
            | Throws _ => "No error body"%string
            end in
          Throws ("Proxy error " ++ pretty (status response) ++ ": " ++ errorBody)
        else Returns response
    end
  else tryProxies PROXIES url.

(** The body of the [forEach] of [fetchRecentTrades] for one record. *)
Definition tradeOfRecord (targetMarkets : list PolymarketMarket) (now : Z)
    (t : RawTrade) : list Trade :=
  let ts := if raw_timestamp t <? 10000000000 then raw_timestamp t * 1000
            else raw_timestamp t in
  match List.find (fun m => bool_decide (market_id m = raw_conditionId t))
                  targetMarkets with
  | Some market =>
      if now - WINDOW_MS <? ts then
        [ {| trade_id := (raw_transactionHash t ++ "-" ++ raw_outcomeIndex t
                          ++ "-" ++ pretty (raw_timestamp t))%string;
             marketId := market_id market;
             marketQuestion := question market;
             outcomeIndex := parseInt (raw_outcomeIndex t);
             outcomeLabel := orString (raw_outcome t) "Outcome";
             side := default BUY (raw_side t);
             price := parseFloat (raw_price t);
             size := parseFloat (raw_size t);
             timestamp := ts;
             makerAddress := orString (raw_proxyWallet t) (raw_maker_address t);
             transactionHash := raw_transactionHash t |} ]
      else []
  | None => []
  end.

Definition fetchRecentTrades (markets : list PolymarketMarket)
    (useSimulation : bool) (localStorage : gmap string string) (now : Z)
    : list Trade :=
  if (length markets =? 0)%nat || useSimulation then []
  else
    let dataUrl := data (getBaseUrls localStorage) in
    let targetMarkets := take 8 markets in
    let conditionIds := String.concat "," (map market_id targetMarkets) in
    let url := (dataUrl ++ "/trades?market=" ++ conditionIds ++ "&limit=100")%string in
    match fetchWithCorsFallback localStorage url with
    | Throws _ => []
    | Returns response =>
        match tradesJson response with
        | Throws _ => []
        | Returns realData =>
            let trades :=
              match realData with
              | Some records =>
                  concat (map (tradeOfRecord targetMarkets now) records)
              | None => []
              end in
            Array_sort (fun a b => timestamp b - timestamp a) trades
        end
    end.

(** A request fails when it is rejected or its answer is not [ok]. *)
Definition attemptFails (target : string) : Prop :=
  match fetch target with
  | Returns response => ok response = false
  | Throws _ => True
  end.

End DataFeed.

(** A reachable data feed that answers every request with one record of the
    demo market, stamped in seconds 1000 s before [demoNow]. *)
Definition feedUp : string -> completion Response :=
  fun _ => Returns {| ok := true; status := 200; text := Returns "[]"%string |}.

Definition demoRecord : RawTrade :=
  {| raw_transactionHash := "0xabc";
     raw_outcomeIndex := "0";
     raw_timestamp := 1699999000;
     raw_conditionId := market_id demoMarket;
     raw_outcome := Some "Maduro"%string;
     raw_side := None;
     raw_price := "0.5";
     raw_size := "500";
     raw_proxyWallet := None;
     raw_maker_address := "0xfeed" |}.

Definition demoTradesJson : Response -> completion (option (list RawTrade)) :=
  fun _ => Returns (Some [demoRecord]).

Definition demoParseFloat : string -> Q :=
  fun s => if bool_decide (s = "500"%string) then 500%Q else 0.5%Q.

Definition demoParseInt : string -> Z := fun _ => 0.

Definition demoFetch (markets : list PolymarketMarket) : list Trade :=
  fetchRecentTrades feedUp (fun u => u) demoTradesJson demoParseFloat
    demoParseInt markets false ∅ demoNow.

(** ** App.tsx: the guard of the scan cycle *)

(** [runCycle] returns at once when [cycleRunningRef.current] is set, sets
    it otherwise and clears it in its [finally]; [stopScan] clears it too.
    [cyclesInFlight] counts the invocations that have passed the guard and not yet
    reached their [finally]. *)
Record Scheduler := {
  cycleRunningRef : bool;
  cyclesInFlight : nat
}.

Inductive SchedulerEvent :=
  | InvokeRunCycle   (* the interval timer or [startLiveScan] calls [runCycle] *)
  | SettleRunCycle   (* a cycle in flight reaches its [finally] *)
  | StopScan.        (* [stopScan] *)

Definition schedulerStep (s : Scheduler) (e : SchedulerEvent) : Scheduler :=
  match e with
  | InvokeRunCycle =>
      if cycleRunningRef s then s
      else {| cycleRunningRef := true; cyclesInFlight := S (cyclesInFlight s) |}
  | SettleRunCycle =>
      match cyclesInFlight s with
      | O => s
      | S n => {| cycleRunningRef := false; cyclesInFlight := n |}
      end
  | StopScan => {| cycleRunningRef := false; cyclesInFlight := cyclesInFlight s |}
  end.

Definition idle : Scheduler := {| cycleRunningRef := false; cyclesInFlight := 0 |}.

Definition runScheduler (events : list SchedulerEvent) (s : Scheduler)
    : Scheduler :=
  fold_left schedulerStep events s.

(** The observations counted over all markets of [marketStatsRef]. *)
Definition observedTotal (ref : gmap string MarketStats) : Z :=
  map_fold (fun _ stats total => count stats + total) 0 ref.

(** ** App.tsx: the handler of the demo simulation tab *)

Section Backtest.

Variable Math_sqrt : Q -> Q.
Variable simulationMode : bool.
Variable holders : string -> option (list string).
Variable firstSeen : string -> option Z.
Variable analyze : Trade -> PolymarketMarket -> list string ->
                   option WalletStats -> completion GeminiAnalysisResponse.

(** The timer callback of the tab: [markets[0] || (await
    getTrendingMarkets(true))[0]] is the first market of the state, and
    [undefined] when there is none, since [getTrendingMarkets(true)] is the
    empty list.  [evaluateTrade] on an undefined market passes the dedup
    gate, marks the id, and throws at [market.id].  [clickedAt] is the clock
    reading of [generateBacktestScenario], [now] that of [evaluateTrade]. *)
Definition backtestClick (clickedAt now : Z) (markets : list PolymarketMarket)
    (st : AppState) : completion (option SuspiciousActivity) * AppState :=
  let trade := generateBacktestScenario clickedAt in
  match head markets with
  | Some market =>
      evaluateTrade Math_sqrt simulationMode holders firstSeen now analyze
        trade market st
  | None =>
      if bool_decide (trade_id trade ∈ processedTradeIds st) then (Returns None, st)
      else
        (Throws "TypeError: Cannot read properties of undefined (reading 'id')",
         {| processedTradeIds := processedTradeIds st ∪ {[trade_id trade]};
            marketStatsRef := marketStatsRef st;
            oracleTrace := oracleTrace st |})
  end.

End Backtest.

(** ** App.tsx: the evaluations of a session *)

(** What an evaluation reads of the outside when it runs: the mode, the
    answers of the three endpoints and the clock. *)
Record Env := {
  env_simulationMode : bool;
  env_holders : string -> option (list string);
  env_firstSeen : string -> option Z;
  env_now : Z;
  env_analyze : Trade -> PolymarketMarket -> list string ->
                option WalletStats -> completion GeminiAnalysisResponse
}.

(** [evaluateTrade] has two call sites: the callback [runCycle] hands to
    [processQueue], and the timer callback of the demo tab. *)
Inductive Action :=
  | Candidate (env : Env) (currentMarkets : list PolymarketMarket) (trade : Trade)
  | DemoClick (env : Env) (clickedAt : Z) (markets : list PolymarketMarket).

Section Session.

Variable Math_sqrt : Q -> Q.

Definition act (a : Action) (st : AppState)
    : completion (option SuspiciousActivity) * AppState :=
  match a with
  | Candidate env currentMarkets trade =>
      evaluateCandidate Math_sqrt (env_simulationMode env) (env_holders env)
        (env_firstSeen env) (env_now env) (env_analyze env)
        currentMarkets trade st
  | DemoClick env clickedAt markets =>
      backtestClick Math_sqrt (env_simulationMode env) (env_holders env)
        (env_firstSeen env) (env_analyze env) clickedAt (env_now env)
        markets st
  end.

(** The calls of a session in the order in which they start ([evaluateTrade]
    reads and writes [processedTradeIds] and [marketStatsRef] before its
    first [await]): the alerts returned, in that order, and the state
    left. *)
Fixpoint runSession (actions : list Action) (st : AppState)
    : list SuspiciousActivity * AppState :=
  match actions with
  | [] => ([], st)
  | a :: r =>
      let '(c, st1) := act a st in
      let '(alerts, st2) := runSession r st1 in
      (match c with Returns (Some x) => x :: alerts | _ => alerts end, st2)
  end.

End Session.



(** * Properties *)

(** ** The running statistics tracker *)

Section WelfordFacts.

Local Open Scope Q_scope.

Lemma Qsum_snoc xs x : Qsum (xs ++ [x]) == Qsum xs + x.
Proof. induction xs as [|y xs IH]; simpl; [ring | rewrite IH; ring]. Qed.

Lemma Qsumsq_snoc xs x : Qsumsq (xs ++ [x]) == Qsumsq xs + x * x.
Proof. induction xs as [|y xs IH]; simpl; [ring | rewrite IH; ring]. Qed.

Lemma inject_Z_succ n : inject_Z (n + 1) == inject_Z n + 1.
Proof. rewrite inject_Z_plus. reflexivity. Qed.

Lemma inject_Z_nat_nonneg n : 0 <= inject_Z (Z.of_nat n).
Proof. change 0 with (inject_Z 0). rewrite <- Zle_Qle. lia. Qed.

Lemma inject_Z_nat_pos n : (0 < n)%nat -> 0 < inject_Z (Z.of_nat n).
Proof. intros H. change 0 with (inject_Z 0). rewrite <- Zlt_Qlt. lia. Qed.

(** The sum of squared deviations about any centre, from the two sums. *)
Lemma Qsum_sqdev xs c :
  Qsum (map (fun x => (x - c) * (x - c)) xs)
  == Qsumsq xs - 2 * c * Qsum xs + inject_Z (Z.of_nat (length xs)) * c * c.
Proof.
  induction xs as [|y xs IH].
  - simpl. ring.
  - cbn [map Qsum Qsumsq length]. rewrite IH, Nat2Z.inj_succ.
    unfold Z.succ. rewrite inject_Z_succ. ring.
Qed.

Lemma freshStats_inv now : welford_inv (freshStats now) [].
Proof. repeat split; simpl; ring. Qed.

Lemma update_lookup now m x ref :
  snd (updateMarketStats now m x ref) !! m
  = Some (fst (updateMarketStats now m x ref)).
Proof. unfold updateMarketStats. simpl. apply lookup_insert_eq. Qed.

Lemma update_lookup_ne now m m' x ref :
  m <> m' -> snd (updateMarketStats now m x ref) !! m' = ref !! m'.
Proof. intros H. unfold updateMarketStats. simpl. by apply lookup_insert_ne. Qed.

(** One Welford step extends the sample by the new observation. *)
Lemma update_inv now m x ref xs :
  welford_inv (default (freshStats now) (ref !! m)) xs ->
  welford_inv (fst (updateMarketStats now m x ref)) (xs ++ [x]).
Proof.
  unfold updateMarketStats, freshStats. simpl.
  set (s := default _ _). intros (Hc & Hm & Hv).
  unfold welford_inv; simpl.
  assert (HN : 0 <= inject_Z (count s)) by (rewrite Hc; apply inject_Z_nat_nonneg).
  split; [|split].
  - rewrite length_app. simpl. lia.
  - rewrite Qsum_snoc, <- Hm, inject_Z_succ. field. lra.
  - rewrite Qsumsq_snoc, Hv, inject_Z_succ. field. lra.
Qed.

Lemma welford_inv_now now now' s xs :
  welford_inv (default (freshStats now) s) xs ->
  welford_inv (default (freshStats now') s) xs.
Proof. destruct s; [done|]. intros H. exact H. Qed.

End WelfordFacts.

Lemma feed_inv obs : forall m ref xs now0,
  welford_inv (default (freshStats now0) (ref !! m)) xs ->
  welford_inv (default (freshStats now0) (feed m obs ref !! m))
              (xs ++ map snd obs).
Proof.
  induction obs as [|[now x] obs IH]; intros m ref xs now0 H.
  - simpl. by rewrite app_nil_r.
  - cbn [feed map snd].
    replace (xs ++ x :: map snd obs) with ((xs ++ [x]) ++ map snd obs)
      by (by rewrite <- app_assoc).
    apply IH. rewrite update_lookup. simpl.
    apply update_inv. by apply (welford_inv_now now0).
Qed.

Lemma feed_lookup_some obs : forall m ref,
  obs <> [] -> is_Some (feed m obs ref !! m).
Proof.
  induction obs as [|[now x] obs IH]; intros m ref Hne; [done|].
  cbn [feed]. destruct obs as [|o obs'].
  - cbn [feed]. rewrite update_lookup. eauto.
  - apply IH. done.
Qed.

(** From the invariant to the batch formulas, for a non-empty sample. *)
Lemma welford_inv_batch s xs :
  xs <> [] -> welford_inv s xs ->
  (meanSize s == batch_mean xs)%Q /\
  (m2Size s / inject_Z (count s) == batch_variance xs)%Q.
Proof.
  intros Hne (Hc & Hm & Hv).
  assert (Hpos : (0 < inject_Z (Z.of_nat (length xs)))%Q).
  { apply inject_Z_nat_pos. destruct xs; [done | simpl; lia]. }
  rewrite Hc in *.
  set (N := inject_Z (Z.of_nat (length xs))) in *.
  assert (Hmean : (meanSize s == Qsum xs / N)%Q).
  { rewrite <- Hm. field. lra. }
  split; [exact Hmean|].
  unfold batch_variance, batch_mean. fold N.
  rewrite Qsum_sqdev. fold N. rewrite Hv, Hmean. field. lra.
Qed.

(** C1.  For every non-empty sequence of trade sizes fed to the tracker for
    one market that had no statistics yet, the stored mean is the arithmetic
    mean of the sequence and M2 / count is its population variance (exactly,
    in rational arithmetic); and every update, whatever the store, applies
    the Welford step to the stored statistics (count 0, mean 0, M2 0 when the
    market is new), stores the result and returns that post-update
    snapshot. *)
Theorem welford_agrees_with_batch (m : string) (obs : list (Z * Q))
    (ref : gmap string MarketStats) :
  ref !! m = None -> obs <> [] ->
  (exists s, feed m obs ref !! m = Some s /\
     count s = Z.of_nat (length obs) /\
     (meanSize s == batch_mean (map snd obs))%Q /\
     (m2Size s / inject_Z (count s) == batch_variance (map snd obs))%Q) /\
  (forall now size (store : gmap string MarketStats),
     let old := default (freshStats now) (store !! m) in
     let new := fst (updateMarketStats now m size store) in
     count new = count old + 1 /\
     meanSize new
       = (meanSize old + (size - meanSize old) / inject_Z (count new))%Q /\
     m2Size new
       = (m2Size old + (size - meanSize old) * (size - meanSize new))%Q /\
     snd (updateMarketStats now m size store) !! m = Some new).
Proof.
  intros Hnone Hne. split.
  - destruct (feed_lookup_some obs m ref Hne) as [s Hs].
    exists s. split; [exact Hs|].
    pose proof (feed_inv obs m ref [] 0) as Hinv.
    rewrite Hnone, Hs in Hinv. simpl in Hinv.
    specialize (Hinv (freshStats_inv 0)).
    assert (Hne' : map snd obs <> []) by (destruct obs; done).
    destruct (welford_inv_batch s _ Hne' Hinv) as [Hmean Hvar].
    destruct Hinv as (Hc & _). rewrite length_map in Hc. done.
  - intros now size store old new. repeat split.
    apply update_lookup.
Qed.

(** The tracker run on the sample 100, 300, 200. *)
Lemma welford_agrees_with_batch_witness :
  exists s, feed "m" [(1, 100%Q); (2, 300%Q); (3, 200%Q)] ∅ !! "m" = Some s /\
    count s = 3 /\ (meanSize s == 200)%Q /\ (m2Size s / 3 == 20000 / 3)%Q.
Proof.
  destruct (welford_agrees_with_batch "m" [(1, 100%Q); (2, 300%Q); (3, 200%Q)] ∅)
    as [(s & Hs & Hc & Hm & Hv) _]; [reflexivity | discriminate |].
  exists s. split; [exact Hs|]. split; [exact Hc|].
  rewrite Hc in Hv. split.
  - rewrite Hm. reflexivity.
  - rewrite Hv. reflexivity.
Defined.

(** ** The comparison primitives *)

Lemma gt_true_iff a b : gt a b = true <-> (b < a)%Q.
Proof.
  unfold gt. destruct (Qlt_le_dec b a) as [H|H]; split; intros H';
    first [done | exfalso; lra].
Qed.

Lemma gt_false_iff a b : gt a b = false <-> (a <= b)%Q.
Proof.
  unfold gt. destruct (Qlt_le_dec b a) as [H|H]; split; intros H';
    first [done | exfalso; lra].
Qed.

Lemma lt_true_iff a b : lt a b = true <-> (a < b)%Q.
Proof. apply gt_true_iff. Qed.

Lemma strict_eq_true_iff a b : strict_eq a b = true <-> (a == b)%Q.
Proof. apply Qeq_bool_iff. Qed.

Lemma strict_eq_false_iff a b : strict_eq a b = false <-> ~ (a == b)%Q.
Proof.
  rewrite <- strict_eq_true_iff. destruct (strict_eq a b); split; intros H;
    first [done | by destruct H].
Qed.

(** ** The heuristic scorer *)

(** The accumulator of [analyzeTradeHeuristics] in closed form. *)
Lemma scorer_closed_form (Math_sqrt : Q -> Q) trade market stats isWhale :
  let z := calculateDynamicZScore Math_sqrt (size trade) stats in
  let cz := gt z 3 in
  let cl := gt (liquidity market) 0 && gt (size trade / liquidity market) 0.01 in
  let cs := lt (price trade) 0.20 && gt (size trade) 200 in
  let cw := default false isWhale in
  let ci := bool_decide (toLowerCase (makerAddress trade)
                         = toLowerCase KNOWN_INSIDER) in
  analyzeTradeHeuristics Math_sqrt trade market stats isWhale
  = ((if cz then 35 else 0) + (if cl then 25 else 0) + (if cs then 20 else 0)
     + (if cw then 30 else 0) + (if ci then 50 else 0),
     (if cz then [("High Size Z=" ++ toFixed1 z)%string] else [])
     ++ (if cl then ["Significant Liquidity Impact"%string] else [])
     ++ (if cs then ["Speculative Accumulation"%string] else [])
     ++ (if cw then ["Verified Whale Activity"%string] else [])
     ++ (if ci then ["Blacklisted/Known Insider"%string] else [])).
Proof.
  intros z cz cl cs cw ci. unfold analyzeTradeHeuristics.
  fold z. fold cz. fold cl. fold cs. fold cw. fold ci.
  by destruct cz, cl, cs, cw, ci.
Qed.

(** C2.  The scorer is a function of (trade, market, stats, isWhale) alone;
    its base score is the sum of five independent contributions, each
    gated by its own threshold and each appending its own tag: z-score
    above 3 adds 35 (the tag carries the z value to one decimal),
    size / liquidity above 0.01 with positive liquidity adds 25, price below
    0.20 with size above 200 adds 20, the whale flag adds 30, a maker address
    equal to the denylisted one up to letter case adds 50.  Nothing clamps
    the sum: with every gate open it is 160. *)
Theorem scorer_is_sum_of_gated_contributions (Math_sqrt : Q -> Q)
    (trade : Trade) (market : PolymarketMarket)
    (stats : option MarketStats) (isWhale : option bool) :
  let z := calculateDynamicZScore Math_sqrt (size trade) stats in
  exists cz cl cs cw ci : bool,
    (cz = true <-> (3 < z)%Q) /\
    (cl = true <->
       (0 < liquidity market)%Q /\ (0.01 < size trade / liquidity market)%Q) /\
    (cs = true <-> (price trade < 0.20)%Q /\ (200 < size trade)%Q) /\
    (cw = true <-> isWhale = Some true) /\
    (ci = true <->
       toLowerCase (makerAddress trade) = toLowerCase KNOWN_INSIDER) /\
    fst (analyzeTradeHeuristics Math_sqrt trade market stats isWhale)
    = (if cz then 35 else 0) + (if cl then 25 else 0) + (if cs then 20 else 0)
      + (if cw then 30 else 0) + (if ci then 50 else 0) /\
    snd (analyzeTradeHeuristics Math_sqrt trade market stats isWhale)
    = (if cz then [("High Size Z=" ++ toFixed1 z)%string] else [])
      ++ (if cl then ["Significant Liquidity Impact"%string] else [])
      ++ (if cs then ["Speculative Accumulation"%string] else [])
      ++ (if cw then ["Verified Whale Activity"%string] else [])
      ++ (if ci then ["Blacklisted/Known Insider"%string] else []) /\
    (cz && cl && cs && cw && ci = true ->
     fst (analyzeTradeHeuristics Math_sqrt trade market stats isWhale) = 160).
Proof.
  intros z.
  exists (gt z 3),
         (gt (liquidity market) 0 && gt (size trade / liquidity market) 0.01),
         (lt (price trade) 0.20 && gt (size trade) 200),
         (default false isWhale),
         (bool_decide (toLowerCase (makerAddress trade) = toLowerCase KNOWN_INSIDER)).
  split; [apply gt_true_iff|].
  split; [rewrite andb_true_iff, !gt_true_iff; done|].
  split; [rewrite andb_true_iff, lt_true_iff, gt_true_iff; done|].
  split; [destruct isWhale as [[]|]; simpl; split; congruence|].
  split; [apply bool_decide_eq_true|].
  rewrite scorer_closed_form. fold z. cbn [fst snd].
  split; [reflexivity|]. split; [reflexivity|].
  generalize (gt z 3)
    (gt (liquidity market) 0 && gt (size trade / liquidity market) 0.01)
    (lt (price trade) 0.20 && gt (size trade) 200) (default false isWhale)
    (bool_decide (toLowerCase (makerAddress trade) = toLowerCase KNOWN_INSIDER)).
  by intros [] [] [] [] [].
Qed.

(** ** The dynamic z-score *)


(** ** Score fusion *)

Lemma levelOf_cases (x : Q) :
  ((85 < x)%Q /\ levelOf x = CRITICAL) \/
  ((65 < x <= 85)%Q /\ levelOf x = HIGH) \/
  ((40 < x <= 65)%Q /\ levelOf x = MEDIUM) \/
  ((x <= 40)%Q /\ levelOf x = LOW).
Proof.
  unfold levelOf.
  destruct (gt x 85) eqn:H1; [apply gt_true_iff in H1; auto|].
  destruct (gt x 65) eqn:H2; [apply gt_true_iff in H2|].
  { apply gt_false_iff in H1. right; left. auto. }
  destruct (gt x 40) eqn:H3; [apply gt_true_iff in H3|].
  { apply gt_false_iff in H2. right; right; left. auto. }
  apply gt_false_iff in H3. right; right; right. auto.
Qed.

Lemma levelOf_Proper x y : (x == y)%Q -> levelOf x = levelOf y.
Proof.
  intros E.
  destruct (levelOf_cases x) as [[H ->]|[[H ->]|[[H ->]|[H ->]]]];
  destruct (levelOf_cases y) as [[H' ->]|[[H' ->]|[[H' ->]|[H' ->]]]];
  first [reflexivity | exfalso; lra].
Qed.

(** The average of two integers: its rounding is a division in [Z], and
    the two ways of reading the level agree on it. *)
Lemma round_half_sum (n : Z) : Math_round (inject_Z n / 2)%Q = (n + 1) / 2.
Proof.
  unfold Math_round.
  assert (E : (inject_Z n / 2 + (1 # 2) == (n + 1) # 2)%Q).
  { unfold Qeq, Qdiv, Qinv, Qmult, Qplus, inject_Z. simpl. lia. }
  rewrite (Qfloor_comp _ _ E). reflexivity.
Qed.

Lemma levelOf_half_sum (n : Z) :
  levelOf (inject_Z n / 2)%Q = levelOfRounded ((n + 1) / 2).
Proof.
  assert (E : (inject_Z n / 2 == n # 2)%Q).
  { unfold Qeq, Qdiv, Qinv, Qmult, inject_Z. simpl. lia. }
  rewrite (levelOf_Proper _ _ E).
  unfold levelOfRounded.
  destruct (levelOf_cases (n # 2)) as [[H ->]|[[H ->]|[[H ->]|[H ->]]]];
    unfold Qlt, Qle in H; simpl in H;
    repeat match goal with
           | |- context [?a <? ?b] => destruct (Z.ltb_spec a b)
           end;
    first [reflexivity | exfalso; Z.div_mod_to_equations; lia].
Qed.

(** The level read off the rounded score differs from the one the code
    computes: base score 85 (z-score and denylist) with analyzer score 85.5
    averages to 85.25, which is above 85 but rounds to 85. *)
Lemma fuse_level_not_from_rounded_score :
  fuse 85 (171 # 2) = (85, CRITICAL) /\
  fuse_spec 85 (171 # 2) = (85, HIGH) /\
  snd (fuse 85 (171 # 2)) <> levelOfRounded (fst (fuse 85 (171 # 2))).
Proof. repeat split; by vm_compute. Qed.

(** C4, amended.  The final score is round((baseScore + analyzerScore) / 2)
    and the level is fixed by exclusive lower bounds on the unrounded
    average (above 85 CRITICAL, above 65 HIGH, above 40 MEDIUM, else LOW);
    when the analyzer score is an integer this is the level read off the
    final score itself.  fuse(60, 80) = (70, HIGH), fuse(0, 0) = (0, LOW),
    fuse(100, 100) = (100, CRITICAL). *)
Theorem fuse_rounds_average_and_levels_unrounded (baseScore : Z)
    (analyzerScore : Q) :
  let average := ((inject_Z baseScore + analyzerScore) / 2)%Q in
  fst (fuse baseScore analyzerScore) = Math_round average /\
  (snd (fuse baseScore analyzerScore) = CRITICAL <-> (85 < average)%Q) /\
  (snd (fuse baseScore analyzerScore) = HIGH <-> (65 < average <= 85)%Q) /\
  (snd (fuse baseScore analyzerScore) = MEDIUM <-> (40 < average <= 65)%Q) /\
  (snd (fuse baseScore analyzerScore) = LOW <-> (average <= 40)%Q) /\
  (forall k : Z, (analyzerScore == inject_Z k)%Q ->
     fuse baseScore analyzerScore = fuse_spec baseScore analyzerScore) /\
  fuse 60 80 = (70, HIGH) /\ fuse 0 0 = (0, LOW) /\
  fuse 100 100 = (100, CRITICAL).
Proof.
  intros average.
  split; [reflexivity|].
  assert (Hl : snd (fuse baseScore analyzerScore) = levelOf average) by reflexivity.
  rewrite Hl. clear Hl.
  assert (Hcases := levelOf_cases average).
  split; [|split; [|split; [|split; [|split; [|done]]]]];
    try (destruct Hcases as [[H ->]|[[H ->]|[[H ->]|[H ->]]]];
         split; intros;
         first [reflexivity | discriminate | lra | exfalso; lra]).
  clear Hcases.
  intros k Hk. unfold fuse, fuse_spec.
  assert (E : ((inject_Z baseScore + analyzerScore) / 2
               == inject_Z (baseScore + k) / 2)%Q).
  { rewrite Hk, inject_Z_plus. reflexivity. }
  unfold Math_round.
  rewrite (levelOf_Proper _ _ E), (Qfloor_comp _ _ (Qplus_comp _ _ E _ _ (Qeq_refl _))).
  fold (Math_round (inject_Z (baseScore + k) / 2)).
  by rewrite round_half_sum, levelOf_half_sum.
Qed.

(** ** Evaluation of one trade *)

Section EvaluateFacts.

Variable Math_sqrt : Q -> Q.
Variable simulationMode : bool.
Variable holders : string -> option (list string).
Variable firstSeen : string -> option Z.
Variable now : Z.
Variable analyze : Trade -> PolymarketMarket -> list string ->
                   option WalletStats -> completion GeminiAnalysisResponse.

Abbreviation evaluate := (evaluateTrade Math_sqrt simulationMode holders firstSeen now analyze).
Abbreviation evaluateMany := (evaluateAll Math_sqrt simulationMode holders firstSeen now analyze).
Abbreviation score := (scored Math_sqrt simulationMode holders now).
Abbreviation wallet trade := (fetchWalletStats firstSeen now (makerAddress trade) simulationMode).

(** The dedup gate: a processed id returns at once. *)
Lemma evaluateTrade_seen trade market st :
  trade_id trade ∈ processedTradeIds st ->
  evaluate trade market st = (Returns None, st).
Proof. intros H. unfold evaluateTrade. by rewrite bool_decide_eq_true_2. Qed.

(** An evaluation that passes the gate, with the pattern bindings of the
    code written as projections. *)
Lemma evaluateTrade_fresh trade market st :
  trade_id trade ∉ processedTradeIds st ->
  evaluate trade market st =
  let sc := score trade market st in
  let w := whaleFlag simulationMode holders trade market in
  let leave trace :=
    {| processedTradeIds := processedTradeIds st ∪ {[trade_id trade]};
       marketStatsRef :=
         snd (updateMarketStats now (market_id market) (size trade)
                (marketStatsRef st));
       oracleTrace := trace |} in
  let trace1 :=
    if simulationMode then oracleTrace st
    else oracleTrace st ++ [FetchMarketWhales (market_id market)] in
  let trace2 :=
    trace1 ++ [FetchWalletStats (makerAddress trade);
               AnalyzeSuspicion (trade_id trade)] in
  if 10 <? fst sc then
    match analyze trade market (snd sc) (wallet trade) with
    | Throws e => (Throws e, leave trace2)
    | Returns analysis =>
        (Returns (Some
           {| alert_id := trade_id trade;
              trade := trade;
              suspicionScore := fst (fuse (fst sc) (g_suspicionScore analysis));
              level := snd (fuse (fst sc) (g_suspicionScore analysis));
              reasoning := g_reasoning analysis;
              factors := Set_values [] (snd sc ++ g_factors analysis);
              walletStats :=
                (fun ws => {| totalTrades := totalTrades ws;
                              winRate := winRate ws;
                              accountAgeDays := accountAgeDays ws;
                              isWhale := Some w |}) <$> wallet trade |}),
         leave trace2)
    end
  else (Returns None, leave trace1).
Proof.
  intros H. unfold evaluateTrade, scored, postUpdateStats, whaleFlag.
  rewrite (bool_decide_eq_false_2 _ H).
  destruct (updateMarketStats _ _ _ _) as [post statsRef].
  cbn [fst snd].
  destruct simulationMode; cbn [negb andb];
    match goal with
    | |- context [analyzeTradeHeuristics ?f ?t ?m ?s ?w] =>
        destruct (analyzeTradeHeuristics f t m s w) as [baseScore tags]
    end;
    cbn [fst snd]; destruct (10 <? baseScore); try reflexivity;
    match goal with
    | |- context [analyze ?a ?b ?c ?d] => destruct (analyze a b c d)
    end; try reflexivity;
    destruct (fuse _ _); reflexivity.
Qed.

Lemma evaluateTrade_low trade market st :
  trade_id trade ∉ processedTradeIds st ->
  fst (score trade market st) <= 10 ->
  fst (evaluate trade market st) = Returns None.
Proof.
  intros H Hlow. rewrite evaluateTrade_fresh by done. cbn zeta.
  replace (10 <? _) with false by (symmetry; apply Z.ltb_ge; lia).
  reflexivity.
Qed.

Lemma evaluateTrade_throws trade market st e :
  trade_id trade ∉ processedTradeIds st ->
  10 < fst (score trade market st) ->
  analyze trade market (snd (score trade market st)) (wallet trade) = Throws e ->
  fst (evaluate trade market st) = Throws e.
Proof.
  intros H Hhigh Han. rewrite evaluateTrade_fresh by done. cbn zeta.
  replace (10 <? _) with true by (symmetry; apply Z.ltb_lt; lia).
  by rewrite Han.
Qed.

Lemma evaluateTrade_alert trade market st analysis :
  trade_id trade ∉ processedTradeIds st ->
  10 < fst (score trade market st) ->
  analyze trade market (snd (score trade market st)) (wallet trade)
  = Returns analysis ->
  exists a, fst (evaluate trade market st) = Returns (Some a) /\
    alert_id a = trade_id trade /\
    (suspicionScore a, level a)
    = fuse (fst (score trade market st)) (g_suspicionScore analysis) /\
    factors a = Set_values [] (snd (score trade market st) ++ g_factors analysis).
Proof.
  intros H Hhigh Han. rewrite evaluateTrade_fresh by done. cbn zeta.
  replace (10 <? _) with true by (symmetry; apply Z.ltb_lt; lia).
  rewrite Han. eexists. split; [reflexivity|].
  cbn [alert_id suspicionScore level factors].
  split; [reflexivity|]. split; [|reflexivity].
  by destruct (fuse _ _).
Qed.

(** The state an evaluation leaves. *)
Lemma evaluateTrade_processed trade market st :
  processedTradeIds (snd (evaluate trade market st))
  = processedTradeIds st ∪ {[trade_id trade]}.
Proof.
  destruct (decide (trade_id trade ∈ processedTradeIds st)) as [H|H].
  - rewrite evaluateTrade_seen by done. simpl. set_solver.
  - rewrite evaluateTrade_fresh by done. cbn zeta.
    destruct (10 <? _); [destruct (analyze _ _ _ _)|]; reflexivity.
Qed.

Lemma evaluateTrade_stats trade market st :
  trade_id trade ∉ processedTradeIds st ->
  marketStatsRef (snd (evaluate trade market st))
  = snd (updateMarketStats now (market_id market) (size trade) (marketStatsRef st)).
Proof.
  intros H. rewrite evaluateTrade_fresh by done. cbn zeta.
  destruct (10 <? _); [destruct (analyze _ _ _ _)|]; reflexivity.
Qed.

(** An alert carries the id of its trade, and that id was new. *)
Lemma evaluateTrade_alert_id trade market st a :
  fst (evaluate trade market st) = Returns (Some a) ->
  alert_id a = trade_id trade /\ trade_id trade ∉ processedTradeIds st.
Proof.
  destruct (decide (trade_id trade ∈ processedTradeIds st)) as [H|H].
  - by rewrite evaluateTrade_seen.
  - rewrite evaluateTrade_fresh by done. cbn zeta.
    destruct (10 <? _); [destruct (analyze _ _ _ _)|]; cbn [fst]; intros E;
      first [discriminate | injection E as <-; done].
Qed.

(** The dedup ledger only grows. *)
Lemma evaluateAll_processed jobs : forall st,
  processedTradeIds st ⊆ processedTradeIds (snd (evaluateMany jobs st)).
Proof.
  induction jobs as [|[t m] jobs IH]; intros st; [done|].
  cbn [evaluateAll].
  pose proof (evaluateTrade_processed t m st) as Hp.
  destruct (evaluate t m st) as [c st1]. cbn [snd] in Hp.
  specialize (IH st1). destruct (evaluateMany jobs st1) as [alerts st2].
  cbn [snd] in *. set_solver.
Qed.

(** Every alert of a sequence of evaluations is for an id that was new when
    the sequence started, and no two alerts share an id. *)
Lemma evaluateAll_alerts jobs : forall st,
  (forall a, a ∈ fst (evaluateMany jobs st) ->
     alert_id a ∉ processedTradeIds st) /\
  NoDup (map alert_id (fst (evaluateMany jobs st))).
Proof.
  induction jobs as [|[t m] jobs IH]; intros st.
  - split; [intros a Ha; by apply elem_of_nil in Ha | constructor].
  - cbn [evaluateAll].
    pose proof (evaluateTrade_processed t m st) as Hp.
    pose proof (evaluateTrade_alert_id t m st) as Hid.
    destruct (evaluate t m st) as [c st1]. cbn [fst snd] in Hp, Hid.
    destruct (IH st1) as [Hnew Hnd].
    destruct (evaluateMany jobs st1) as [alerts st2]. cbn [fst snd] in *.
    assert (Hrest : forall a, a ∈ alerts -> alert_id a ∉ processedTradeIds st).
    { intros a Ha Hin. apply (Hnew a Ha). rewrite Hp. set_solver. }
    destruct c as [[a0|]|e]; [|done..].
    destruct (Hid a0 eq_refl) as [Ha0 Hfresh].
    split.
    + intros a Ha. apply elem_of_cons in Ha as [->|Ha]; [by rewrite Ha0 | auto].
    + cbn [map]. apply NoDup_cons. split; [|done].
      intros Hin. apply list_elem_of_fmap in Hin as (a & Ea & Ha).
      apply (Hnew a Ha). rewrite Hp, <- Ea, Ha0. set_solver.
Qed.

(** C5.  Evaluation is idempotent per trade id.  Once a trade has been
    submitted, submitting its id again, after any number of other
    evaluations in the same or a later cycle, returns no alert and leaves
    the state as it was: no statistics update, no external call, no new
    ledger entry.  No later evaluation produces an alert for that id, and
    the alerts of any sequence of evaluations have pairwise distinct ids. *)
Theorem evaluation_is_idempotent_per_trade_id
    (trade trade' : Trade) (market market' : PolymarketMarket)
    (jobs : list (Trade * PolymarketMarket)) (st : AppState) :
  trade_id trade' = trade_id trade ->
  let st1 := snd (evaluate trade market st) in
  let st2 := snd (evaluateMany jobs st1) in
  evaluate trade' market' st2 = (Returns None, st2) /\
  (forall a, a ∈ fst (evaluateMany jobs st1) -> alert_id a <> trade_id trade) /\
  NoDup (map alert_id
           (fst (evaluateMany ((trade, market) :: jobs ++ [(trade', market')]) st))).
Proof.
  intros Hid st1 st2.
  assert (Hin1 : trade_id trade ∈ processedTradeIds st1).
  { unfold st1. rewrite evaluateTrade_processed. set_solver. }
  split; [|split].
  - apply evaluateTrade_seen. rewrite Hid.
    by apply (evaluateAll_processed jobs st1).
  - intros a Ha E. apply (proj1 (evaluateAll_alerts jobs st1) a Ha).
    by rewrite E.
  - apply evaluateAll_alerts.
Qed.

(** C3, amended.  For every trade that passes the dedup gate, the z-score
    the heuristic scorer uses is computed against the post-update statistics
    of the trade's market, the snapshot [updateMarketStats] stored and
    returned, which already counts the trade: with a post-update count
    below 5 it is the fixed reference (size - 200) / 300, otherwise it is
    (size - mean') / stddev with stddev = sqrt(M2' / count'), and 0 when
    that deviation is 0.  That z-score gates the first contribution of the
    score, and the score decides the outcome of the evaluation. *)
Theorem scorer_zscore_uses_post_update_stats
    (trade : Trade) (market : PolymarketMarket) (st : AppState) :
  trade_id trade ∉ processedTradeIds st ->
  let pre := default (freshStats now) (marketStatsRef st !! market_id market) in
  let post := postUpdateStats now trade market st in
  let z := calculateDynamicZScore Math_sqrt (size trade) (Some post) in
  let stdDev := Math_sqrt (m2Size post / inject_Z (count post))%Q in
  marketStatsRef (snd (evaluate trade market st)) !! market_id market
  = Some post /\
  count post = count pre + 1 /\
  (count post < 5 -> z = ((size trade - 200) / 300)%Q) /\
  (5 <= count post -> ~ (stdDev == 0)%Q ->
   z = ((size trade - meanSize post) / stdDev)%Q) /\
  (5 <= count post -> (stdDev == 0)%Q -> z = 0%Q) /\
  (exists rest tags, 0 <= rest /\
     fst (score trade market st) = (if gt z 3 then 35 else 0) + rest /\
     snd (score trade market st)
     = (if gt z 3 then [("High Size Z=" ++ toFixed1 z)%string] else []) ++ tags) /\
  (fst (score trade market st) <= 10 ->
   fst (evaluate trade market st) = Returns None) /\
  (10 < fst (score trade market st) ->
   forall analysis,
     analyze trade market (snd (score trade market st)) (wallet trade)
     = Returns analysis ->
     exists a, fst (evaluate trade market st) = Returns (Some a) /\
       alert_id a = trade_id trade /\
       (suspicionScore a, level a)
       = fuse (fst (score trade market st)) (g_suspicionScore analysis) /\
       factors a
       = Set_values [] (snd (score trade market st) ++ g_factors analysis)).
Proof.
  intros Hnew pre post z stdDev.
  split; [|split; [|split; [|split; [|split; [|split; [|split]]]]]].
  - rewrite evaluateTrade_stats by done. apply update_lookup.
  - reflexivity.
  - intros Hc. unfold z, calculateDynamicZScore.
    by replace (count post <? 5) with true by (symmetry; apply Z.ltb_lt; lia).
  - intros Hc Hsd. unfold z, calculateDynamicZScore.
    replace (count post <? 5) with false by (symmetry; apply Z.ltb_ge; lia).
    fold stdDev. apply strict_eq_false_iff in Hsd. by rewrite Hsd.
  - intros Hc Hsd. unfold z, calculateDynamicZScore.
    replace (count post <? 5) with false by (symmetry; apply Z.ltb_ge; lia).
    fold stdDev. apply strict_eq_true_iff in Hsd. by rewrite Hsd.
  - unfold scored. rewrite scorer_closed_form. cbn zeta. fold post. fold z.
    cbn [fst snd]. eexists _, _. split; [|split; [|reflexivity]].
    2: { rewrite <- !Z.add_assoc. reflexivity. }
    repeat match goal with
           | |- context [if ?b then _ else _] => destruct b
           end; lia.
  - by apply evaluateTrade_low.
  - intros Hhigh analysis Han. by apply evaluateTrade_alert.
Qed.

End EvaluateFacts.

Lemma fifthTrade_is_new :
  trade_id fifthTrade ∉ processedTradeIds stateAfterFour.
Proof.
  assert (H : bool_decide (trade_id fifthTrade ∈ processedTradeIds stateAfterFour)
              = false) by (by vm_compute).
  by apply bool_decide_eq_false in H.
Defined.

(** The fifth trade of a market whose first four trades had size 500 has
    size 2000.  Against the statistics before the update (count 4, a cold
    start) its z-score is (2000 - 200) / 300 = 6, which would add 35 and the
    tag, and the trade would be analysed.  The code scores it against the
    statistics after the update (count 5, mean 800, deviation 600): z = 2,
    no contribution, base score 0 and no alert. *)
Lemma zscore_not_against_pre_update_stats :
  (trade_id fifthTrade ∉ processedTradeIds stateAfterFour) /\
  (count <$> (marketStatsRef stateAfterFour !! market_id demoMarket)) = Some 4 /\
  scoredAgainstPreUpdate sqrt52 true noHolders fifthTrade demoMarket stateAfterFour
  = (35, ["High Size Z=6.0"%string]) /\
  scored sqrt52 true noHolders demoNow fifthTrade demoMarket stateAfterFour
  = (0, []) /\
  (calculateDynamicZScore sqrt52 (size fifthTrade)
     (Some (postUpdateStats demoNow fifthTrade demoMarket stateAfterFour)) == 2)%Q /\
  fst (evaluateDemo fifthTrade demoMarket stateAfterFour) = Returns None.
Proof.
  split; [exact fifthTrade_is_new|].
  repeat split; by vm_compute.
Qed.

(** The evaluation of the fifth trade above, through the amended claim. *)
Lemma scorer_zscore_uses_post_update_stats_witness :
  count (postUpdateStats demoNow fifthTrade demoMarket stateAfterFour) = 5 /\
  fst (evaluateDemo fifthTrade demoMarket stateAfterFour) = Returns None.
Proof.
  pose proof fifthTrade_is_new as Hnew.
  destruct (scorer_zscore_uses_post_update_stats sqrt52 true noHolders
              noActivity demoNow analyzeOffline fifthTrade demoMarket
              stateAfterFour Hnew)
    as (_ & Hc & _ & _ & _ & _ & Hlow & _).
  split.
  - rewrite Hc. by vm_compute.
  - apply Hlow. by vm_compute.
Defined.

(** A second submission of the backtest trade, two trades later. *)
Lemma evaluation_is_idempotent_per_trade_id_witness :
  let t := generateBacktestScenario demoNow in
  let st1 := snd (evaluateDemo t demoMarket initialState) in
  let st2 := snd (evaluateAllDemo fourQuietTrades st1) in
  evaluateDemo t demoMarket st2 = (Returns None, st2).
Proof.
  intros t st1 st2.
  exact (proj1 (evaluation_is_idempotent_per_trade_id sqrt52 true noHolders
                  noActivity demoNow analyzeOffline t t demoMarket demoMarket
                  fourQuietTrades initialState eq_refl)).
Defined.

(** ** The backtest scenario *)

Lemma fuse_critical_iff (baseScore : Z) (analyzerScore : Q) :
  snd (fuse baseScore analyzerScore) = CRITICAL
  <-> (170 - inject_Z baseScore < analyzerScore)%Q.
Proof.
  unfold fuse. cbn [snd]. generalize (inject_Z baseScore). intros b.
  assert (E : (b + analyzerScore == 2 * ((b + analyzerScore) / 2))%Q) by field.
  revert E. generalize ((b + analyzerScore) / 2)%Q. intros average E.
  destruct (levelOf_cases average)
    as [[H ->]|[[H ->]|[[H ->]|[H ->]]]];
    split; intros H'; first [reflexivity | discriminate | lra | exfalso; lra].
Qed.

(** The scenario with all five factors triggered (the demo market, a cold
    start, the whale flag set) and an analyzer score of 0: base score 160,
    final score 80, level HIGH and not CRITICAL. *)
Lemma backtest_scenario_not_always_critical :
  (liquidity demoMarket == 450000)%Q /\
  (3 < calculateDynamicZScore sqrt52 (size (generateBacktestScenario demoNow)) None)%Q /\
  analyzeTradeHeuristics sqrt52 (generateBacktestScenario demoNow) demoMarket
    None (Some true)
  = (160, ["High Size Z=116.0"; "Significant Liquidity Impact";
           "Speculative Accumulation"; "Verified Whale Activity";
           "Blacklisted/Known Insider"]%string) /\
  (0 <= 0)%Q /\ fuse 160 0 = (80, HIGH) /\
  snd (fuse 160 0) <> CRITICAL.
Proof. repeat split; by vm_compute. Qed.

(** C9, amended.  The backtest trade (size 35000, price 0.12, denylisted
    maker) against a market with liquidity 450000, when its z-score exceeds
    3, triggers all five factors if the whale flag is set (base score 160)
    and the other four if it is not (base score 130); the base score is at
    least 100, nothing clamps it, and fusion gives CRITICAL exactly when the
    analyzer score exceeds 170 - baseScore: above 10 with five factors,
    above 40 with four. *)
Theorem backtest_scenario_scores (Math_sqrt : Q -> Q) (now : Z)
    (market : PolymarketMarket) (stats : option MarketStats)
    (isWhale : option bool) :
  (liquidity market == 450000)%Q ->
  (3 < calculateDynamicZScore Math_sqrt 35000 stats)%Q ->
  let z := calculateDynamicZScore Math_sqrt 35000 stats in
  let r := analyzeTradeHeuristics Math_sqrt (generateBacktestScenario now)
             market stats isWhale in
  (isWhale = Some true ->
   r = (160, [("High Size Z=" ++ toFixed1 z)%string;
              "Significant Liquidity Impact"%string;
              "Speculative Accumulation"%string;
              "Verified Whale Activity"%string;
              "Blacklisted/Known Insider"%string]) /\
   forall a, snd (fuse (fst r) a) = CRITICAL <-> (10 < a)%Q) /\
  (isWhale <> Some true ->
   r = (130, [("High Size Z=" ++ toFixed1 z)%string;
              "Significant Liquidity Impact"%string;
              "Speculative Accumulation"%string;
              "Blacklisted/Known Insider"%string]) /\
   forall a, snd (fuse (fst r) a) = CRITICAL <-> (40 < a)%Q) /\
  100 <= fst r.
Proof.
  intros Hliq Hz z r.
  assert (Hr : r = ((if default false isWhale then 160 else 130),
                    [("High Size Z=" ++ toFixed1 z)%string;
                     "Significant Liquidity Impact"%string;
                     "Speculative Accumulation"%string]
                    ++ (if default false isWhale
                        then ["Verified Whale Activity"%string] else [])
                    ++ ["Blacklisted/Known Insider"%string])).
  { unfold r. rewrite scorer_closed_form. cbn zeta.
    change (size (generateBacktestScenario now)) with 35000%Q.
    change (price (generateBacktestScenario now)) with 0.12%Q.
    change (makerAddress (generateBacktestScenario now)) with KNOWN_INSIDER.
    fold z.
    replace (gt z 3) with true by (symmetry; by apply gt_true_iff).
    replace (gt (liquidity market) 0) with true
      by (symmetry; apply gt_true_iff; rewrite Hliq; reflexivity).
    replace (gt (35000 / liquidity market) 0.01) with true
      by (symmetry; apply gt_true_iff; rewrite Hliq; reflexivity).
    rewrite bool_decide_eq_true_2 by reflexivity.
    change (lt 0.12 0.20 && gt 35000 200) with true.
    by destruct (default false isWhale). }
  rewrite Hr. cbn [fst].
  split; [|split].
  - intros ->. change (default false (Some true)) with true.
    split; [reflexivity|].
    intros a. rewrite fuse_critical_iff.
    change (inject_Z 160) with 160%Q. split; intros; lra.
  - intros Hw.
    replace (default false isWhale) with false
      by (by destruct isWhale as [[]|]).
    split; [reflexivity|].
    intros a. rewrite fuse_critical_iff.
    change (inject_Z 130) with 130%Q. split; intros; lra.
  - destruct (default false isWhale); lia.
Qed.

(** The scenario on the demo market at a cold start, the whale flag set. *)
Lemma backtest_scenario_scores_witness :
  fst (analyzeTradeHeuristics sqrt52 (generateBacktestScenario demoNow)
         demoMarket None (Some true)) = 160.
Proof.
  destruct (backtest_scenario_scores sqrt52 demoNow demoMarket None (Some true))
    as [H _]; [reflexivity | reflexivity |].
  destruct (H eq_refl) as [-> _]. reflexivity.
Defined.

(** ** The alert ledger *)

Section MapFacts.

Context {V : Type}.
Implicit Types (m entries : list (string * V)) (k : string) (v : V).

Lemma Map_set_keys k v m :
  map fst (Map_set k v m)
  = if bool_decide (k ∈ map fst m) then map fst m else map fst m ++ [k].
Proof.
  induction m as [|[k' v'] m IH]; [done|].
  cbn [Map_set map fst]. destruct (decide (k' = k)) as [->|Hk].
  - rewrite (bool_decide_eq_true_2 (k = k)) by done.
    rewrite bool_decide_eq_true_2 by apply list_elem_of_here. done.
  - rewrite (bool_decide_eq_false_2 (k' = k)) by done.
    cbn [map fst]. rewrite IH.
    destruct (decide (k ∈ map fst m)) as [Hin|Hin].
    + rewrite !bool_decide_eq_true_2; [done| |done].
      by apply list_elem_of_further.
    + rewrite (bool_decide_eq_false_2 (k ∈ map fst m)) by done.
      rewrite bool_decide_eq_false_2; [done|].
      intros [E|?]%elem_of_cons; [by subst|done].
Qed.

Lemma Map_set_NoDup k v m :
  NoDup (map fst m) -> NoDup (map fst (Map_set k v m)).
Proof.
  intros Hnd. rewrite Map_set_keys. case_bool_decide as Hin; [done|].
  apply NoDup_app. split; [done|]. split; [|apply NoDup_singleton].
  intros x Hx ->%list_elem_of_singleton. done.
Qed.

Lemma Map_set_elem k v m k' v' :
  NoDup (map fst m) ->
  (k', v') ∈ Map_set k v m
  <-> (k' = k /\ v' = v) \/ (k' <> k /\ (k', v') ∈ m).
Proof.
  induction m as [|[k0 v0] m IH]; intros Hnd.
  - cbn. rewrite list_elem_of_singleton. split.
    + intros [= -> ->]. by left.
    + intros [[-> ->]|[_ H]]; [done|]. by apply elem_of_nil in H.
  - cbn [map fst] in Hnd. apply NoDup_cons in Hnd as [Hk0 Hnd].
    cbn [Map_set]. destruct (decide (k0 = k)) as [->|Hk];
      [rewrite (bool_decide_eq_true_2 (k = k)) by done
      |rewrite (bool_decide_eq_false_2 (k0 = k)) by done].
    + rewrite !elem_of_cons. split.
      * intros [[= -> ->]|Hin]; [by left|].
        destruct (decide (k' = k)) as [->|Hne]; [|by right; split; [|right]].
        exfalso. apply Hk0. apply list_elem_of_fmap. by exists (k, v').
      * intros [[-> ->]|[Hne [[= -> ->]|Hin]]]; [by left|done|by right].
    + rewrite !elem_of_cons, (IH Hnd). split.
      * intros [[= -> ->]|[[-> ->]|[Hne Hin]]].
        -- right. split; [done|by left].
        -- by left.
        -- right. split; [done|by right].
      * intros [[-> ->]|[Hne [[= -> ->]|Hin]]].
        -- right. by left.
        -- by left.
        -- right. right. done.
Qed.

(** Inserting a list of entries into a map with distinct keys: the keys stay
    distinct, and a key is bound to its last inserted value, or to its old
    value when it was not inserted. *)
Lemma Map_fold_spec entries : forall m,
  NoDup (map fst m) ->
  let m' := fold_left (fun m e => Map_set (fst e) (snd e) m) entries m in
  NoDup (map fst m') /\
  forall k v, (k, v) ∈ m'
    <-> lastWithKey k entries = Some v
        \/ (lastWithKey k entries = None /\ (k, v) ∈ m).
Proof.
  induction entries as [|[k0 v0] entries IH]; intros m Hnd.
  - cbn. split; [done|]. intros k v. split; [by right|].
    by intros [?|[_ ?]].
  - cbn [fold_left fst snd lastWithKey].
    destruct (IH (Map_set k0 v0 m) (Map_set_NoDup k0 v0 m Hnd)) as [Hnd' Hel].
    split; [exact Hnd'|].
    intros k v. rewrite Hel, (Map_set_elem _ _ _ _ _ Hnd).
    destruct (lastWithKey k entries) as [w|].
    + split; intros [?|[? _]]; first [by left | done].
    + destruct (decide (k0 = k)) as [->|Hk];
        [rewrite (bool_decide_eq_true_2 (k = k)) by done
        |rewrite (bool_decide_eq_false_2 (k0 = k)) by done].
      * split.
        -- intros [?|[_ [[_ ->]|[? _]]]]; [done|by left|done].
        -- intros [[= ->]|[? _]]; [|done]. right. split; [done|by left].
      * split.
        -- intros [?|[_ [[-> _]|[_ ?]]]]; [done|done|by right].
        -- intros [?|[_ ?]]; [done|]. right. split; [done|].
           right. split; [congruence|done].
Qed.

Lemma Map_from_spec entries :
  NoDup (map fst (Map_from entries)) /\
  forall k v, (k, v) ∈ Map_from entries <-> lastWithKey k entries = Some v.
Proof.
  destruct (Map_fold_spec entries [] (NoDup_nil_2)) as [Hnd Hel].
  split; [exact Hnd|]. intros k v. unfold Map_from. rewrite Hel.
  split; [|by left]. intros [?|[_ H]]; [done|]. by apply elem_of_nil in H.
Qed.

End MapFacts.

Section SortFacts.

Context {A : Type} (cmp : A -> A -> Z).

Lemma sort_insert_perm x l : sort_insert cmp x l ≡ₚ x :: l.
Proof.
  induction l as [|y l IH]; [done|]. cbn [sort_insert].
  destruct (cmp x y <=? 0); [done|]. rewrite IH. apply Permutation_swap.
Qed.

Lemma Array_sort_perm l : Array_sort cmp l ≡ₚ l.
Proof.
  induction l as [|x l IH]; [done|]. cbn [Array_sort foldr].
  rewrite sort_insert_perm. by apply Permutation_skip.
Qed.

(** A comparator that decides a total preorder sorts by it. *)
Context (R : relation A) `{!Transitive R}.
Hypothesis cmp_le : forall x y, cmp x y <= 0 -> R x y.
Hypothesis cmp_gt : forall x y, 0 < cmp x y -> R y x.

Lemma sort_insert_sorted x l :
  StronglySorted R l -> StronglySorted R (sort_insert cmp x l).
Proof.
  induction 1 as [|y l Hs IH Hy]; cbn [sort_insert].
  - repeat constructor.
  - destruct (Z.leb_spec (cmp x y) 0) as [Hle|Hgt].
    + constructor; [by constructor|].
      constructor; [by apply cmp_le|].
      eapply Forall_impl; [exact Hy|]. intros z Hz.
      transitivity y; [by apply cmp_le | done].
    + constructor; [done|].
      rewrite sort_insert_perm. constructor; [by apply cmp_gt | done].
Qed.

Lemma Array_sort_sorted l : StronglySorted R (Array_sort cmp l).
Proof.
  induction l as [|x l IH]; [constructor|].
  cbn [Array_sort foldr]. by apply sort_insert_sorted.
Qed.

End SortFacts.


#[local] Instance ranksBefore_transitive : Transitive ranksBefore.
Proof. intros a b c. unfold ranksBefore. lia. Qed.

Lemma alertCompare_le a b : alertCompare a b <= 0 -> ranksBefore a b.
Proof.
  unfold alertCompare, ranksBefore.
  destruct (Z.eqb_spec (suspicionScore b - suspicionScore a) 0); lia.
Qed.

Lemma alertCompare_gt a b : 0 < alertCompare a b -> ranksBefore b a.
Proof.
  unfold alertCompare, ranksBefore.
  destruct (Z.eqb_spec (suspicionScore b - suspicionScore a) 0); lia.
Qed.

Lemma lastWithKey_entry k (l : list SuspiciousActivity) a :
  lastAlertWithId k l = Some a -> alert_id a = k /\ a ∈ l.
Proof.
  unfold lastAlertWithId. induction l as [|b l IH]; [done|].
  cbn [map lastWithKey].
  destruct (lastWithKey k _) as [w|].
  - intros [= ->]. destruct (IH eq_refl) as [? ?].
    split; [done|by apply list_elem_of_further].
  - case_bool_decide as Hk; [|done]. intros [= ->].
    split; [done|apply list_elem_of_here].
Qed.


Lemma Map_set_length {V} k (v : V) m :
  (length (Map_set k v m) <= S (length m))%nat.
Proof.
  induction m as [|[k' v'] m IH]; cbn [Map_set length]; [lia|].
  destruct (bool_decide (k' = k)); cbn [length]; lia.
Qed.

Lemma Map_from_length {V} (entries : list (string * V)) :
  (length (Map_from entries) <= length entries)%nat.
Proof.
  unfold Map_from.
  assert (H : forall m, (length (fold_left (fun m e => Map_set (fst e) (snd e) m)
                                   entries m) <= length m + length entries)%nat).
  { induction entries as [|e entries IH]; intros m; cbn [fold_left length]; [lia|].
    specialize (IH (Map_set (fst e) (snd e) m)).
    pose proof (Map_set_length (fst e) (snd e) m). lia. }
  apply (H []).
Qed.

(** The deduplicated array of [mergeAlerts]. *)
Lemma unique_spec (next : list SuspiciousActivity) :
  let unique :=
    Map_values (Map_from (map (fun item => (alert_id item, item)) next)) in
  NoDup (map alert_id unique) /\
  (forall a, a ∈ unique <-> lastAlertWithId (alert_id a) next = Some a) /\
  (length unique <= length next)%nat.
Proof.
  intros unique. unfold unique, Map_values.
  set (entries := map (fun item => (alert_id item, item)) next).
  destruct (Map_from_spec entries) as [Hnd Hel].
  assert (Hkey : forall k a, (k, a) ∈ Map_from entries -> k = alert_id a).
  { intros k a Hin. apply Hel in Hin.
    by destruct (lastWithKey_entry k next a Hin). }
  split; [|split].
  - replace (map alert_id (map snd (Map_from entries)))
      with (map fst (Map_from entries)); [done|].
    rewrite map_map. apply map_ext_in. intros [k a] Hin.
    apply list_elem_of_In in Hin. by apply Hkey.
  - intros a. split.
    + intros ([k b] & -> & Hin)%list_elem_of_fmap. cbn [snd].
      rewrite <- (Hkey _ _ Hin). by apply Hel.
    + intros Hlast. apply list_elem_of_fmap.
      exists (alert_id a, a). split; [done|]. by apply Hel.
  - rewrite length_map. etrans; [apply Map_from_length|].
    unfold entries. by rewrite length_map.
Qed.


(** ** The bounded concurrent evaluator *)

Section ProcessQueueFacts.

Context {T R S K : Type}.
Variable start : T -> S -> K * S.
Variable settle : K -> completion (option R).

Abbreviation pool := (PoolState T R S K).
Abbreviation step := (poolStep start settle).
Abbreviation started items s := (fst (startAll start items s)).
Abbreviation spawned items c s := (spawn (R:=R) start items c s).

Implicit Types (st : pool) (items : list T) (ks : list K).

Local Open Scope nat_scope.

Lemma startAll_snoc items x s :
  startAll start (items ++ [x]) s
  = (fst (startAll start items s)
       ++ [fst (start x (snd (startAll start items s)))],
     snd (start x (snd (startAll start items s)))).
Proof.
  revert s. induction items as [|y items IH]; intros s; simpl.
  - by destruct (start x s).
  - destruct (start y s) as [k s1]. rewrite IH.
    by destruct (startAll start items s1).
Qed.

Lemma alertsOf_app ks1 ks2 :
  alertsOf settle (ks1 ++ ks2) = alertsOf settle ks1 ++ alertsOf settle ks2.
Proof. unfold alertsOf. by rewrite map_app, concat_app. Qed.

Lemma alertsOf_perm ks1 ks2 :
  ks1 ≡ₚ ks2 -> alertsOf settle ks1 ≡ₚ alertsOf settle ks2.
Proof.
  unfold alertsOf. induction 1 as [|k l1 l2 _ IH|k1 k2 l|l1 l2 l3 _ IH1 _ IH2];
    cbn [map concat].
  - done.
  - by rewrite IH.
  - rewrite !app_assoc. f_equiv. apply Permutation_app_comm.
  - by rewrite IH1.
Qed.

Lemma elem_of_alertsOf ks r :
  r ∈ alertsOf settle ks <-> exists k, k ∈ ks /\ settle k = Returns (Some r).
Proof.
  unfold alertsOf. induction ks as [|k ks IH]; cbn [map concat].
  - split; [by intros ?%elem_of_nil | by intros (k & ?%elem_of_nil & _)].
  - rewrite elem_of_app, IH. split.
    + intros [Hin|(k' & Hin & Hk')].
      * exists k. split; [apply list_elem_of_here|].
        destruct (settle k) as [[r'|]|e]; cbn in Hin;
          [apply list_elem_of_singleton in Hin; by subst
          |by apply elem_of_nil in Hin..].
      * exists k'. split; [by apply list_elem_of_further | done].
    + intros (k' & [->|Hin]%elem_of_cons & Hk').
      * left. rewrite Hk'. apply list_elem_of_here.
      * right. by exists k'.
Qed.


(** A worker going round its loop keeps the relation to the sequential
    reference, whatever the pool looked like. *)
Lemma workerLoop_inv items s0 st :
  (exists prefix settled,
     items = prefix ++ queue st /\
     started prefix s0 ≡ₚ settled ++ inFlight st /\
     shared st = snd (startAll start prefix s0) /\
     results st ≡ₚ alertsOf settle settled) ->
  poolInv start settle items s0 (workerLoop start st).
Proof.
  intros (prefix & settled & Hq & Hk & Hs & Hr).
  unfold workerLoop. destruct (queue st) as [|x rest] eqn:Eq.
  - exists prefix, settled. rewrite Eq. done.
  - destruct (start x (shared st)) as [k s1] eqn:Est.
    exists (prefix ++ [x]), settled. cbn [queue inFlight results shared].
    rewrite startAll_snoc, <- Hs, Est. cbn [fst snd].
    split; [by rewrite <- app_assoc|].
    split; [by rewrite Hk, !app_assoc|].
    split; [done|]. split; [done|].
    intros Habs. by destruct (inFlight st).
Qed.

Lemma workerLoop_measure st :
  length (queue (workerLoop start st)) + length (inFlight (workerLoop start st))
  = length (queue st) + length (inFlight st).
Proof.
  unfold workerLoop. destruct (queue st) as [|x rest] eqn:E; [by rewrite E|].
  destruct (start x (shared st)) as [k s1]. cbn [queue inFlight length].
  rewrite length_app. cbn [length]. lia.
Qed.

Lemma spawn_inv items concurrency s0 :
  1 <= concurrency -> poolInv start settle items s0 (spawn start items concurrency s0).
Proof.
  intros Hc. unfold spawn.
  assert (Hcore : forall n,
    let st := Nat.iter n (workerLoop start)
                {| queue := items; inFlight := []; results := []; shared := s0 |} in
    exists prefix settled,
      items = prefix ++ queue st /\
      started prefix s0 ≡ₚ settled ++ inFlight st /\
      shared st = snd (startAll start prefix s0) /\
      results st ≡ₚ alertsOf settle settled).
  { induction n as [|n IH].
    - by exists [], [].
    - cbn [Nat.iter]. destruct (workerLoop_inv items s0 _ IH)
        as (prefix & settled & ? & ? & ? & ? & _). by exists prefix, settled. }
  destruct items as [|x items].
  - exists [], []. done.
  - destruct (Nat.min (length (x :: items)) concurrency) as [|n] eqn:Emin;
      [cbn [length] in Emin; lia|].
    cbn [Nat.iter]. apply workerLoop_inv, Hcore.
Qed.

Lemma spawn_measure items concurrency s0 :
  length (queue (spawned items concurrency s0))
  + length (inFlight (spawned items concurrency s0)) = length items.
Proof.
  unfold spawn. generalize (Nat.min (length items) concurrency). intros n.
  induction n as [|n IH]; [cbn; lia|].
  by rewrite Nat.iter_succ, workerLoop_measure.
Qed.

Lemma step_inv items s0 st st' :
  poolInv start settle items s0 st -> step st st' ->
  poolInv start settle items s0 st'.
Proof.
  intros (prefix & settled & Hq & Hk & Hs & Hr & _) [i Hi].
  unfold settleAt in Hi. destruct (inFlight st !! i) as [k|] eqn:Ei; [|done].
  injection Hi as <-. apply workerLoop_inv.
  exists prefix, (settled ++ [k]). cbn [queue inFlight results shared].
  split; [done|]. split; [|split; [done|]].
  - rewrite Hk, <- app_assoc. f_equiv. cbn [app].
    by apply delete_Permutation.
  - rewrite alertsOf_app, Hr. f_equiv.
    unfold alertsOf. cbn [map concat]. by rewrite app_nil_r.
Qed.

Lemma step_measure st st' :
  step st st' ->
  length (queue st') + length (inFlight st') + 1
  = length (queue st) + length (inFlight st).
Proof.
  intros [i Hi]. unfold settleAt in Hi.
  destruct (inFlight st !! i) as [k|] eqn:Ei; [|done].
  injection Hi as <-. rewrite workerLoop_measure. cbn [queue inFlight].
  rewrite length_delete by eauto.
  apply lookup_lt_Some in Ei. lia.
Qed.

Lemma step_progress st : ~ finished st -> exists st', step st st'.
Proof.
  unfold finished. destruct (inFlight st) as [|k ks] eqn:E; [done|]. intros _.
  eexists. exists 0%nat. unfold settleAt. rewrite E. reflexivity.
Qed.

Lemma nsteps_inv items s0 n st st' :
  poolInv start settle items s0 st -> nsteps step n st st' ->
  poolInv start settle items s0 st' /\
  n + length (queue st') + length (inFlight st')
  = length (queue st) + length (inFlight st).
Proof.
  intros Hinv Hn. revert Hinv.
  induction Hn as [st|n st st1 st2 Hstep Hn IH]; intros Hinv; [split; [done|lia]|].
  destruct (IH (step_inv _ _ _ _ Hinv Hstep)) as [Hinv' Hm].
  split; [done|]. pose proof (step_measure _ _ Hstep). lia.
Qed.

Lemma runSchedule_nsteps schedule : forall st st',
  runSchedule start settle schedule st = Some st' ->
  nsteps step (length schedule) st st'.
Proof.
  induction schedule as [|i schedule IH]; intros st st' H; cbn in H.
  - injection H as <-. constructor.
  - destruct (settleAt start settle i st) as [st1|] eqn:E; [|done].
    cbn in H. econstructor; [by exists i | by apply IH].
Qed.

(** C8.  For every list of candidates and every order in which their
    evaluations settle, with a concurrency of at least 1: an evaluation
    that throws is caught and adds no alert, every other candidate is still
    started and settled, the pool can always take a step until no call is in
    flight, that happens after exactly one settlement per candidate, and
    only then does the evaluator return; what it returns is, up to order,
    exactly the alerts of the candidates whose evaluation returned one.  The
    synchronous parts of the evaluations have run in queue order. *)
Theorem processQueue_isolates_failures
    (items : list T) (concurrency : nat) (s0 : S) (n : nat) (st : pool) :
  1 <= concurrency ->
  nsteps step n (spawned items concurrency s0) st ->
  n <= length items /\
  (~ finished st -> exists st', step st st') /\
  (finished st <-> n = length items) /\
  (finished st ->
   queue st = [] /\
   results st ≡ₚ alertsOf settle (started items s0) /\
   shared st = snd (startAll start items s0) /\
   forall r, r ∈ results st
     <-> exists k, k ∈ started items s0 /\ settle k = Returns (Some r)).
Proof.
  intros Hc Hn.
  destruct (nsteps_inv items s0 n _ _ (spawn_inv items concurrency s0 Hc) Hn)
    as [(prefix & settled & Hq & Hk & Hs & Hr & Hidle) Hm].
  rewrite spawn_measure in Hm.
  split; [lia|]. split; [apply step_progress|].
  assert (Hfin : finished st -> queue st = [] /\ n = length items).
  { intros Hf. specialize (Hidle Hf). unfold finished in Hf.
    rewrite Hf, Hidle in Hm. cbn [length] in Hm. split; [done|lia]. }
  split.
  - split; [by intros [_ ?]%Hfin|].
    intros ->. unfold finished. destruct (inFlight st); [done|].
    cbn [length] in Hm. lia.
  - intros Hf. destruct (Hfin Hf) as [Hqe _]. unfold finished in Hf.
    rewrite Hqe, app_nil_r in Hq. subst prefix.
    rewrite Hf, app_nil_r in Hk.
    assert (Hres : results st ≡ₚ alertsOf settle (started items s0)).
    { rewrite Hr. by apply alertsOf_perm. }
    split; [done|]. split; [done|]. split; [done|].
    intros r. rewrite Hres. apply elem_of_alertsOf.
Qed.

End ProcessQueueFacts.

(** A live batch of three candidates with concurrency 3, settling in the
    order third, first, second: the second evaluation throws (its wallet is
    unknown to the oracle), the third returns no alert, and the evaluator
    returns the alert of the first. *)
Lemma processQueue_isolates_failures_witness :
  exists st,
    runSchedule liveEvaluate liveSettle [2; 0; 0]%nat
      (spawn liveEvaluate liveCandidates 3 initialState) = Some st /\
    finished st /\
    map alert_id (results st) = ["sim-maduro-whale"%string] /\
    fst (startAll liveEvaluate liveCandidates initialState) !! 1%nat
    = Some (Throws "TypeError: Cannot read properties of undefined (reading 'accountAgeDays')").
Proof.
  destruct (runSchedule liveEvaluate liveSettle [2; 0; 0]%nat
              (spawn liveEvaluate liveCandidates 3 initialState))
    as [st|] eqn:Erun; [|by vm_compute in Erun].
  exists st. split; [done|].
  pose proof (processQueue_isolates_failures liveEvaluate liveSettle
                liveCandidates 3 initialState 3 st ltac:(lia)
                (runSchedule_nsteps liveEvaluate liveSettle _ _ _ Erun))
    as (_ & _ & Hfin & _).
  split; [by apply Hfin|].
  split; [|by vm_compute].
  assert (E : Some (map alert_id (results st))
              = Some ["sim-maduro-whale"%string]); [|by injection E].
  change (Some (map alert_id (results st)))
    with ((fun st => map alert_id (results st)) <$> Some st).
  rewrite <- Erun. by vm_compute.
Defined.

(** ** The suspicion analyzer *)

Section AnalyzerFacts.

Variable generateContent : PromptFacts -> completion string.
Variable parseResponse : string -> completion GeminiAnalysisResponse.

(** The [catch] branch turns every failure of the [try] block into the
    heuristic fallback. *)
Lemma catchFallback_returns preliminaryFactors attempt :
  exists r, catchFallback preliminaryFactors attempt = Returns r /\
    ((exists e, attempt = Throws e) -> r = heuristicFallback preliminaryFactors) /\
    (forall r', attempt = Returns r' -> r = r').
Proof.
  destruct attempt as [r'|e]; eexists; (split; [reflexivity|]); split.
  - by intros [e [=]].
  - by intros ? [= ->].
  - done.
  - by intros ? [=].
Qed.

(** The [try] block fails when the request is rejected, the answer has no
    text, or the text does not parse. *)
Lemma tryAnalyze_throws prompt :
  (exists e, generateContent prompt = Throws e) \/
  generateContent prompt = Returns ""%string \/
  (exists text e, generateContent prompt = Returns text /\
                  parseResponse text = Throws e) ->
  exists e, tryAnalyze generateContent parseResponse prompt = Throws e.
Proof.
  unfold tryAnalyze. intros [[e ->]|[->|(text & e & -> & Hp)]]; [eauto..|].
  case_bool_decide; eauto.
Qed.

Lemma heuristicFallback_score preliminaryFactors :
  g_suspicionScore (heuristicFallback preliminaryFactors)
  = inject_Z (Z.min 50 (15 * Z.of_nat (length preliminaryFactors))) /\
  (length preliminaryFactors = 3%nat ->
   g_suspicionScore (heuristicFallback preliminaryFactors) = 45%Q /\
   riskLevel (heuristicFallback preliminaryFactors) = MEDIUM).
Proof.
  unfold heuristicFallback, Math_min. cbn [g_suspicionScore riskLevel].
  split; [by rewrite Z.mul_comm|]. by intros ->.
Qed.

(** services/geminiService.ts: [analyzeSuspicion] returns for every input,
    and returns the heuristic fallback whenever the [try] block fails. *)
Lemma analyzeSuspicion_never_throws trade market preliminaryFactors walletStats :
  exists r,
    analyzeSuspicion generateContent parseResponse trade market
      preliminaryFactors walletStats = Returns r /\
    (let prompt := {| p_market := market; p_trade := trade;
                      p_walletAgeDays := accountAgeDays <$> walletStats;
                      p_flags := preliminaryFactors |} in
     (exists e, generateContent prompt = Throws e) \/
     generateContent prompt = Returns ""%string \/
     (exists text e, generateContent prompt = Returns text /\
                     parseResponse text = Throws e) ->
     r = heuristicFallback preliminaryFactors).
Proof.
  unfold analyzeSuspicion.
  destruct (catchFallback_returns preliminaryFactors
              (tryAnalyze generateContent parseResponse
                 {| p_market := market; p_trade := trade;
                    p_walletAgeDays := accountAgeDays <$> walletStats;
                    p_flags := preliminaryFactors |}))
    as (r & Hr & Hfail & _).
  exists r. split; [exact Hr|].
  cbv zeta. intros Hcause. apply Hfail. by apply tryAnalyze_throws.
Qed.

(** C7 on the FACTS_JSON revision of [analyzeSuspicion].  With wallet
    statistics present it returns for every analyzer outcome, the fallback
    min(50, 15 x factorCount) on failure (45 and MEDIUM for 3 factors); with
    wallet statistics absent, which is what [fetchWalletStats] yields for an
    address without activity, it throws before the [try] block, and
    [evaluateTrade] passes the error on. *)
Theorem analyzeSuspicion_factsJson_throws_without_wallet_stats
    (trade : Trade) (market : PolymarketMarket) (preliminaryFactors : list string) :
  analyzeSuspicion_factsJson generateContent parseResponse trade market
    preliminaryFactors None
  = Throws "TypeError: Cannot read properties of undefined (reading 'accountAgeDays')" /\
  (exists r, analyzeSuspicion generateContent parseResponse trade market
               preliminaryFactors None = Returns r) /\
  (forall w, exists r,
     analyzeSuspicion_factsJson generateContent parseResponse trade market
       preliminaryFactors (Some w) = Returns r /\
     ((exists e, generateContent
                   {| p_market := market; p_trade := trade;
                      p_walletAgeDays := Some (accountAgeDays w);
                      p_flags := preliminaryFactors |} = Throws e) ->
      r = heuristicFallback preliminaryFactors /\
      g_suspicionScore r
      = inject_Z (Z.min 50 (15 * Z.of_nat (length preliminaryFactors))) /\
      (length preliminaryFactors = 3%nat ->
       g_suspicionScore r = 45%Q /\ riskLevel r = MEDIUM))).
Proof.
  split; [reflexivity|]. split.
  - destruct (analyzeSuspicion_never_throws trade market preliminaryFactors None)
      as (r & Hr & _). eauto.
  - intros w. cbn [analyzeSuspicion_factsJson].
    destruct (catchFallback_returns preliminaryFactors
                (tryAnalyze generateContent parseResponse
                   {| p_market := market; p_trade := trade;
                      p_walletAgeDays := Some (accountAgeDays w);
                      p_flags := preliminaryFactors |}))
      as (r & Hr & Hfail & _).
    exists r. split; [exact Hr|]. intros Hdown.
    assert (E : r = heuristicFallback preliminaryFactors).
    { apply Hfail, tryAnalyze_throws. by left. }
    subst r. split; [done|]. apply heuristicFallback_score.
Qed.

End AnalyzerFacts.

(** The failing input end to end: a live evaluation of a trade whose maker
    has no recorded activity, scored above the threshold, ends in the
    TypeError instead of an alert with the fallback score. *)
Lemma evaluateTrade_propagates_analyzer_TypeError :
  fst (liveEvaluate (quietTrade "big" 9000 7) initialState)
  = Throws "TypeError: Cannot read properties of undefined (reading 'accountAgeDays')".
Proof. by vm_compute. Qed.

(** * Further properties of the code *)

(** ** The statistics tracker across markets *)

Lemma feedAll_inv updates : forall m ref xs now0,
  welford_inv (default (freshStats now0) (ref !! m)) xs ->
  welford_inv (default (freshStats now0) (feedAll updates ref !! m))
              (xs ++ observationsOf m updates).
Proof.
  induction updates as [|[[m' now] x] updates IH]; intros m ref xs now0 H.
  - simpl. by rewrite app_nil_r.
  - cbn [feedAll observationsOf]. case_bool_decide as Hm.
    + subst m'.
      replace (xs ++ x :: observationsOf m updates)
        with ((xs ++ [x]) ++ observationsOf m updates)
        by (by rewrite <- app_assoc).
      apply IH. rewrite update_lookup. simpl.
      apply update_inv. by apply (welford_inv_now now0).
    + apply IH. by rewrite update_lookup_ne.
Qed.

Lemma feedAll_lookup updates : forall m ref,
  (observationsOf m updates = [] -> feedAll updates ref !! m = ref !! m) /\
  (observationsOf m updates <> [] -> is_Some (feedAll updates ref !! m)) /\
  (is_Some (ref !! m) -> is_Some (feedAll updates ref !! m)).
Proof.
  induction updates as [|[[m' now] x] updates IH]; intros m ref.
  - cbn. done.
  - cbn [feedAll observationsOf].
    destruct (IH m (snd (updateMarketStats now m' x ref))) as (IHn & IHs & IHk).
    case_bool_decide as Hm.
    + subst m'. assert (Hk : is_Some (snd (updateMarketStats now m x ref) !! m))
        by (rewrite update_lookup; eauto).
      split; [done|]. split; intros _; by apply IHk.
    + split; [|split].
      * intros E. rewrite (IHn E). by apply update_lookup_ne.
      * done.
      * intros Hs. apply IHk. by rewrite update_lookup_ne.
Qed.

(** X1.  However the updates of several markets interleave, the statistics
    stored for a market are those of its own observations in arrival order:
    the count is their number, the mean their arithmetic mean, M2 / count
    their population variance; a market without observations keeps what it
    had. *)
Theorem stats_of_a_market_ignore_other_markets
    (updates : list (string * Z * Q)) (m : string)
    (ref : gmap string MarketStats) :
  ref !! m = None ->
  (observationsOf m updates = [] -> feedAll updates ref !! m = None) /\
  (observationsOf m updates <> [] ->
   exists s, feedAll updates ref !! m = Some s /\
     count s = Z.of_nat (length (observationsOf m updates)) /\
     (meanSize s == batch_mean (observationsOf m updates))%Q /\
     (m2Size s / inject_Z (count s)
      == batch_variance (observationsOf m updates))%Q).
Proof.
  intros Hnone. destruct (feedAll_lookup updates m ref) as (Hn & Hs & _).
  split; [intros E; by rewrite (Hn E)|].
  intros Hne. destruct (Hs Hne) as [s Es]. exists s. split; [done|].
  pose proof (feedAll_inv updates m ref [] 0) as Hinv.
  rewrite Hnone, Es in Hinv. simpl in Hinv.
  specialize (Hinv (freshStats_inv 0)).
  destruct (welford_inv_batch s _ Hne Hinv) as [Hmean Hvar].
  by destruct Hinv as (Hc & _).
Qed.

Lemma stats_of_a_market_ignore_other_markets_witness :
  exists s,
    feedAll [("a", 1, 100%Q); ("b", 2, 7%Q); ("a", 3, 300%Q); ("b", 4, 9%Q)]
      ∅ !! "a" = Some s /\
    count s = 2 /\ (meanSize s == 200)%Q.
Proof.
  destruct (stats_of_a_market_ignore_other_markets
              [("a", 1, 100%Q); ("b", 2, 7%Q); ("a", 3, 300%Q); ("b", 4, 9%Q)]
              "a" ∅ (lookup_empty _)) as [_ H].
  destruct H as (s & Es & Hc & Hm & _); [discriminate|].
  exists s. split; [done|]. split; [done|]. rewrite Hm. reflexivity.
Defined.

Lemma Qsquare_nonneg (a : Q) : (0 <= a * a)%Q.
Proof. unfold Qle, Qmult. simpl. nia. Qed.

Lemma Qsum_squares_nonneg xs c :
  (0 <= Qsum (map (fun x => (x - c) * (x - c)) xs))%Q.
Proof.
  induction xs as [|x xs IH]; cbn [map Qsum]; [lra|].
  pose proof (Qsquare_nonneg (x - c)). lra.
Qed.

Lemma welford_inv_nonneg s xs :
  welford_inv s xs -> 0 <= count s /\ (0 <= m2Size s)%Q.
Proof.
  intros (Hc & Hm & Hv). split; [lia|].
  pose proof (Qsum_squares_nonneg xs (meanSize s)) as Hsq.
  rewrite Qsum_sqdev, <- Hc, <- Hm in Hsq. rewrite Hv.
  eapply Qle_trans; [exact Hsq|]. apply Qle_lteq. right. ring.
Qed.

(** X2.  Whatever was fed to a tracker that started empty, every stored
    statistics record has a count of at least 1 and a non-negative M2: the
    variance M2 / count that the z-score takes the root of is never
    negative and never a division by zero. *)
Theorem stored_stats_have_positive_count_and_nonnegative_M2
    (updates : list (string * Z * Q)) (m : string) (s : MarketStats) :
  feedAll updates ∅ !! m = Some s ->
  1 <= count s /\ (0 <= m2Size s)%Q /\
  (0 <= m2Size s / inject_Z (count s))%Q.
Proof.
  intros Es.
  pose proof (feedAll_inv updates m ∅ [] 0) as Hinv.
  rewrite lookup_empty, Es in Hinv. simpl in Hinv.
  specialize (Hinv (freshStats_inv 0)).
  destruct (welford_inv_nonneg _ _ Hinv) as [_ Hm2].
  destruct (feedAll_lookup updates m ∅) as (Hn & _ & _).
  assert (Hc : 1 <= count s).
  { destruct Hinv as (Hc & _). rewrite Hc.
    destruct (observationsOf m updates) as [|x xs] eqn:E; [|simpl; lia].
    rewrite (Hn eq_refl), lookup_empty in Es. done. }
  split; [done|]. split; [done|].
  apply Qle_shift_div_l; [|lra].
  change 0%Q with (inject_Z 0). rewrite <- Zlt_Qlt. lia.
Qed.

Lemma stored_stats_have_positive_count_and_nonnegative_M2_witness :
  exists s, feedAll [("a", 1, 100%Q); ("a", 3, 300%Q)] ∅ !! "a" = Some s /\
            1 <= count s /\ (0 <= m2Size s)%Q.
Proof.
  eexists. split; [reflexivity|].
  destruct (stored_stats_have_positive_count_and_nonnegative_M2
              [("a", 1, 100%Q); ("a", 3, 300%Q)] "a" _ eq_refl) as (H1 & H2 & _).
  done.
Defined.

(** ** Bounds of the heuristic scorer *)

Lemma zTag_distinct z :
  ("High Size Z=" ++ toFixed1 z)%string <> "Significant Liquidity Impact"%string /\
  ("High Size Z=" ++ toFixed1 z)%string <> "Speculative Accumulation"%string /\
  ("High Size Z=" ++ toFixed1 z)%string <> "Verified Whale Activity"%string /\
  ("High Size Z=" ++ toFixed1 z)%string <> "Blacklisted/Known Insider"%string.
Proof. repeat split; discriminate. Qed.

(** X3.  The base score lies between 0 and 160 and is 0 or at least 20; the
    scorer returns at most five tags, pairwise distinct; and the score
    exceeds the qualification threshold 10 of [evaluateTrade] exactly when
    at least one factor fired. *)
Theorem scorer_bounds_and_threshold (Math_sqrt : Q -> Q)
    (trade : Trade) (market : PolymarketMarket)
    (stats : option MarketStats) (isWhale : option bool) :
  let r := analyzeTradeHeuristics Math_sqrt trade market stats isWhale in
  0 <= fst r <= 160 /\
  (fst r = 0 \/ 20 <= fst r) /\
  (length (snd r) <= 5)%nat /\
  NoDup (snd r) /\
  (10 < fst r <-> snd r <> []) /\
  (fst r = 0 <-> snd r = []).
Proof.
  intros r. unfold r. rewrite scorer_closed_form. cbn zeta.
  destruct (zTag_distinct (calculateDynamicZScore Math_sqrt (size trade) stats))
    as (H1 & H2 & H3 & H4).
  destruct (gt _ 3), (gt (liquidity market) 0 && _), (lt _ _ && _),
    (default false isWhale), (bool_decide _); cbn [fst snd app length];
    (split; [lia|]); (split; [lia|]); (split; [lia|]);
    (split; [repeat (apply NoDup_cons_2;
                      [rewrite ?not_elem_of_cons; repeat split;
                       first [done | apply not_elem_of_nil]|]);
             apply NoDup_nil_2|]);
    split; split; intros H; first [lia | done].
Qed.

(** ** Score fusion: rounding and levels together *)

Lemma Math_round_bounds (x : Q) :
  (inject_Z (Math_round x) - (1 # 2) <= x)%Q /\
  (x < inject_Z (Math_round x) + (1 # 2))%Q.
Proof.
  unfold Math_round.
  pose proof (Qfloor_le (x + (1 # 2))) as H1.
  pose proof (Qlt_floor (x + (1 # 2))) as H2.
  rewrite inject_Z_plus in H2. change (inject_Z 1) with 1%Q in H2.
  revert H1 H2. generalize (inject_Z (Qfloor (x + (1 # 2)))). intros q H1 H2.
  split; lra.
Qed.

Lemma Math_round_ge (x : Q) (k : Z) : (inject_Z k - (1 # 2) <= x)%Q -> k <= Math_round x.
Proof.
  intros H. destruct (Math_round_bounds x) as [_ H2].
  assert (Hlt : (inject_Z k < inject_Z (Math_round x) + 1)%Q).
  { revert H H2. generalize (inject_Z k) (inject_Z (Math_round x)).
    intros p q H H2. lra. }
  change 1%Q with (inject_Z 1) in Hlt.
  rewrite <- inject_Z_plus, <- Zlt_Qlt in Hlt. lia.
Qed.

Lemma Math_round_le (x : Q) (k : Z) : (x < inject_Z k + (1 # 2))%Q -> Math_round x <= k.
Proof.
  intros H. destruct (Math_round_bounds x) as [H1 _].
  assert (Hlt : (inject_Z (Math_round x) < inject_Z k + 1)%Q).
  { revert H H1. generalize (inject_Z k) (inject_Z (Math_round x)).
    intros p q H H1. lra. }
  change 1%Q with (inject_Z 1) in Hlt.
  rewrite <- inject_Z_plus, <- Zlt_Qlt in Hlt. lia.
Qed.

(** X4.  The level and the stored score of an alert never contradict each
    other by more than the rounding: CRITICAL comes with a score of at
    least 85, HIGH with one from 65 to 85, MEDIUM with one from 40 to 65,
    LOW with one of at most 40; and the stored score is within one half of
    the average of the two input scores. *)
Theorem fuse_level_is_consistent_with_score (baseScore : Z) (analyzerScore : Q) :
  let average := ((inject_Z baseScore + analyzerScore) / 2)%Q in
  let score := fst (fuse baseScore analyzerScore) in
  let level := snd (fuse baseScore analyzerScore) in
  (level = CRITICAL -> 85 <= score) /\
  (level = HIGH -> 65 <= score <= 85) /\
  (level = MEDIUM -> 40 <= score <= 65) /\
  (level = LOW -> score <= 40) /\
  (inject_Z score - (1 # 2) <= average < inject_Z score + (1 # 2))%Q.
Proof.
  intros average score level.
  assert (Hs : score = Math_round average) by reflexivity.
  assert (Hl : level = levelOf average) by reflexivity.
  rewrite Hs, Hl. clear Hs Hl score level.
  assert (Hge : forall k : Z, (inject_Z k < average)%Q -> k <= Math_round average).
  { intros k H. apply Math_round_ge. revert H. generalize (inject_Z k).
    intros q H. lra. }
  assert (Hle : forall k : Z, (average <= inject_Z k)%Q -> Math_round average <= k).
  { intros k H. apply Math_round_le. revert H. generalize (inject_Z k).
    intros q H. lra. }
  destruct (levelOf_cases average) as [[H ->]|[[H ->]|[[H ->]|[H ->]]]];
    (split; [intros E; first [discriminate | apply (Hge 85); apply H]|]);
    (split; [intros E; first [discriminate
                             | split; [apply (Hge 65)|apply (Hle 85)]; apply H]|]);
    (split; [intros E; first [discriminate
                             | split; [apply (Hge 40)|apply (Hle 65)]; apply H]|]);
    (split; [intros E; first [discriminate | apply (Hle 40); apply H]|]);
    apply Math_round_bounds.
Qed.

Lemma levelOf_monotone (x y : Q) :
  (x <= y)%Q -> levelRank (levelOf x) <= levelRank (levelOf y).
Proof.
  intros Hxy.
  destruct (levelOf_cases x) as [[H ->]|[[H ->]|[[H ->]|[H ->]]]];
  destruct (levelOf_cases y) as [[H' ->]|[[H' ->]|[[H' ->]|[H' ->]]]];
  cbn [levelRank]; first [lia | exfalso; lra].
Qed.

(** X5.  Fusion is monotone: raising the base score or the analyzer score
    never lowers the stored score or the level. *)
Theorem fuse_is_monotone (baseScore baseScore' : Z) (analyzerScore analyzerScore' : Q) :
  baseScore <= baseScore' -> (analyzerScore <= analyzerScore')%Q ->
  fst (fuse baseScore analyzerScore) <= fst (fuse baseScore' analyzerScore') /\
  levelRank (snd (fuse baseScore analyzerScore))
  <= levelRank (snd (fuse baseScore' analyzerScore')).
Proof.
  intros Hb Ha.
  assert (Havg : ((inject_Z baseScore + analyzerScore) / 2
                  <= (inject_Z baseScore' + analyzerScore') / 2)%Q).
  { apply Qmult_le_compat_r; [|done].
    rewrite Zle_Qle in Hb. revert Hb.
    generalize (inject_Z baseScore) (inject_Z baseScore'). intros p q Hb. lra. }
  unfold fuse. cbn [fst snd]. split.
  - unfold Math_round. apply Qfloor_resp_le. lra.
  - by apply levelOf_monotone.
Qed.

Lemma fuse_is_monotone_witness :
  fst (fuse 60 80) <= fst (fuse 85 (171 # 2)) /\
  levelRank (snd (fuse 60 80)) <= levelRank (snd (fuse 85 (171 # 2))).
Proof. apply fuse_is_monotone; [lia | by vm_compute]. Defined.

(** ** The z-score against statistics that include the trade *)

(** The deviation of the new observation from the new mean, and the bound
    the new M2 puts on it. *)
Lemma welford_deviation_bound (N M mu x : Q) :
  (0 <= N)%Q -> (0 <= M)%Q ->
  ((x - (mu + (x - mu) / (N + 1))) * (x - (mu + (x - mu) / (N + 1)))
   <= N * ((M + (x - mu) * (x - (mu + (x - mu) / (N + 1)))) / (N + 1)))%Q.
Proof.
  intros HN HM.
  set (q := ((x - mu) / (N + 1))%Q).
  assert (Ex : (x == mu + q * (N + 1))%Q) by (unfold q; field; lra).
  assert (E1 : (x - (mu + q) == q * N)%Q) by (rewrite Ex at 1; ring).
  assert (E3 : (x - mu == q * (N + 1))%Q) by (rewrite Ex at 1; ring).
  assert (E2 : ((M + (x - mu) * (q * N)) / (N + 1)
                == M / (N + 1) + q * q * N)%Q).
  { rewrite E3. field. lra. }
  rewrite E1, E2.
  assert (H0 : (0 <= M / (N + 1))%Q) by (apply Qle_shift_div_l; lra).
  assert (H1 : (0 <= N * (M / (N + 1)))%Q) by (apply Qmult_le_0_compat; lra).
  assert (E4 : (N * (M / (N + 1) + q * q * N)
                == N * (M / (N + 1)) + q * N * (q * N))%Q) by ring.
  rewrite E4. lra.
Qed.

Lemma post_update_deviation_bound now m x store :
  let old := default (freshStats now) (store !! m) in
  let post := fst (updateMarketStats now m x store) in
  0 <= count old -> (0 <= m2Size old)%Q ->
  ((x - meanSize post) * (x - meanSize post)
   <= inject_Z (count old) * (m2Size post / inject_Z (count post)))%Q.
Proof.
  intros old post Hc Hm2.
  assert (HN : (0 <= inject_Z (count old))%Q).
  { change 0%Q with (inject_Z 0). by rewrite <- Zle_Qle. }
  pose proof (welford_deviation_bound (inject_Z (count old)) (m2Size old)
                (meanSize old) x HN Hm2) as H.
  assert (E : (inject_Z (count old) + 1 == inject_Z (count post))%Q).
  { change (count post) with (count old + 1). by rewrite inject_Z_succ. }
  rewrite E in H. exact H.
Qed.

(** With nine trades of size 500 and a tenth of size 502 the bound of the
    tenth trade is attained: the variance is 9/25, and with its exact root
    3/5 the z-score is exactly 3. *)
Lemma zscore_bound_is_attained_at_count_10 (Math_sqrt : Q -> Q) :
  let store := feedAll (repeat ("m"%string, 0, 500%Q) 9) ∅ in
  let post := fst (updateMarketStats 0 "m" 502 store) in
  count post = 10 /\
  (m2Size post / inject_Z (count post) == 9 # 25)%Q /\
  ((Math_sqrt (m2Size post / inject_Z (count post)) == 3 # 5)%Q ->
   (calculateDynamicZScore Math_sqrt 502 (Some post) == 3)%Q).
Proof.
  cbv zeta. split; [by vm_compute|]. split; [by vm_compute|].
  intros Hroot. unfold calculateDynamicZScore.
  replace (count _ <? 5) with false by by vm_compute.
  set (stdDev := Math_sqrt _) in *.
  destruct (strict_eq stdDev 0) eqn:E0.
  { apply strict_eq_true_iff in E0. rewrite E0 in Hroot. discriminate Hroot. }
  rewrite Hroot. by vm_compute.
Qed.

(** X6.  Because the scorer sees the statistics after the update, the
    trade is part of its own reference sample, which bounds its z-score:
    a trade that brings the count of its market to 5, 6, 7 or 8 has a
    z-score of at most 3 whatever its size, and this with room to spare: it
    holds for every non-negative root whose square is at least 7/9 of the
    variance M2 / count.  The "High Size" factor can fire on the first four
    trades of a market (cold start), never on the fifth to eighth.  The
    bound on the z-score grows with the count and reaches 3 at count 10,
    where it is attained ([zscore_bound_is_attained_at_count_10]); nothing
    is stated for counts from 9 on. *)
Theorem zscore_gate_is_closed_for_counts_5_to_8 (Math_sqrt : Q -> Q)
    (now : Z) (m : string) (x : Q) (store : gmap string MarketStats) :
  let old := default (freshStats now) (store !! m) in
  let post := fst (updateMarketStats now m x store) in
  let variance := (m2Size post / inject_Z (count post))%Q in
  let stdDev := Math_sqrt variance in
  let z := calculateDynamicZScore Math_sqrt x (Some post) in
  (0 <= m2Size old)%Q ->
  5 <= count post <= 8 ->
  (0 <= stdDev)%Q ->
  ((7 # 9) * variance <= stdDev * stdDev)%Q ->
  (z <= 3)%Q /\ gt z 3 = false.
Proof.
  intros old post variance stdDev z Hm2 Hc Hsd Hroot.
  assert (Hcount : count post = count old + 1) by reflexivity.
  assert (Hold : 0 <= count old) by lia.
  pose proof (post_update_deviation_bound now m x store Hold Hm2) as Hdev.
  cbv zeta in Hdev. fold old post in Hdev. fold variance in Hdev.
  assert (HN : (inject_Z (count old) <= 7)%Q).
  { change 7%Q with (inject_Z 7). rewrite <- Zle_Qle. lia. }
  assert (HN0 : (0 <= inject_Z (count old))%Q).
  { change 0%Q with (inject_Z 0). rewrite <- Zle_Qle. lia. }
  assert (Ez : ((stdDev == 0)%Q /\ z = 0%Q)
               \/ ((0 < stdDev)%Q /\ (z == (x - meanSize post) / stdDev)%Q)).
  { unfold z, calculateDynamicZScore.
    replace (count post <? 5) with false by (symmetry; apply Z.ltb_ge; lia).
    fold variance. fold stdDev. destruct (strict_eq stdDev 0) eqn:E0.
    - left. by apply strict_eq_true_iff in E0.
    - right. apply strict_eq_false_iff in E0. split; [|reflexivity].
      apply Qle_lteq in Hsd as [?|?]; [done|]. by destruct E0. }
  clearbody z. revert Hdev HN HN0 Hroot Hsd Ez.
  generalize (inject_Z (count old)) (x - meanSize post)%Q.
  clearbody stdDev variance. intros N d Hdev HN HN0 Hroot Hsd Ez.
  pose proof (Qsquare_nonneg stdDev) as Hsd2.
  pose proof (Qsquare_nonneg d) as Hd2.
  assert (H9 : (N * variance <= 9 * (stdDev * stdDev))%Q).
  { destruct (Qlt_le_dec variance 0) as [Hneg|Hnn].
    - assert (E : (N * variance == - (N * - variance))%Q) by ring.
      assert (0 <= N * - variance)%Q by (apply Qmult_le_0_compat; lra). lra.
    - assert (E : (7 * variance == N * variance + (7 - N) * variance)%Q) by ring.
      assert (0 <= (7 - N) * variance)%Q by (apply Qmult_le_0_compat; lra).
      lra. }
  assert (Hz3 : (z <= 3)%Q); [|split; [done|by apply gt_false_iff]].
  destruct Ez as [[_ ->]|[Hpos Ez]]; [lra|]. rewrite Ez.
  apply Qle_shift_div_r; [done|].
  destruct (Qlt_le_dec (3 * stdDev) d) as [Hbig|]; [exfalso|done].
  assert (Hsq : (3 * stdDev * (3 * stdDev) < d * d)%Q).
  { apply Qle_lt_trans with (3 * stdDev * d)%Q.
    - apply Qmult_le_l; lra.
    - apply Qmult_lt_r; lra. }
  assert (E : (3 * stdDev * (3 * stdDev) == 9 * (stdDev * stdDev))%Q) by ring.
  rewrite E in Hsq. lra.
Qed.

(** The fifth trade of the demo market: variance 360000, deviation 600. *)
Lemma zscore_gate_is_closed_for_counts_5_to_8_witness :
  gt (calculateDynamicZScore sqrt52 (size fifthTrade)
        (Some (postUpdateStats demoNow fifthTrade demoMarket stateAfterFour))) 3
  = false.
Proof.
  apply (zscore_gate_is_closed_for_counts_5_to_8 sqrt52 demoNow
           (market_id demoMarket) (size fifthTrade)
           (marketStatsRef stateAfterFour)); by vm_compute.
Defined.

(** ** The factor tags of an alert *)

Lemma Set_values_spec l : forall seen,
  NoDup (Set_values seen l) /\
  forall x, x ∈ Set_values seen l <-> x ∈ l /\ x ∉ seen.
Proof.
  induction l as [|y l IH]; intros seen; cbn [Set_values].
  - split; [constructor|]. intros x. rewrite elem_of_nil. tauto.
  - case_bool_decide as Hy.
    + destruct (IH seen) as [Hnd Hel]. split; [done|].
      intros x. rewrite Hel, elem_of_cons. split; [tauto|].
      intros [[->|?] ?]; tauto.
    + destruct (IH (y :: seen)) as [Hnd Hel]. split.
      * apply NoDup_cons_2; [|done]. rewrite Hel, elem_of_cons. tauto.
      * intros x. rewrite !elem_of_cons, Hel, elem_of_cons.
        split.
        -- intros [->|[? ?]]; tauto.
        -- intros [[->|?] ?]; [tauto|].
           destruct (decide (x = y)) as [->|]; tauto.
Qed.

Lemma Set_values_all_seen l seen :
  (forall x, x ∈ l -> x ∈ seen) -> Set_values seen l = [].
Proof.
  revert seen. induction l as [|y l IH]; intros seen H; [done|].
  cbn [Set_values]. rewrite bool_decide_eq_true_2 by (apply H; left).
  apply IH. intros x Hx. apply H. by right.
Qed.

Lemma Set_values_NoDup_prefix l : forall seen l2,
  NoDup l -> (forall x, x ∈ l -> x ∉ seen) ->
  Set_values seen (l ++ l2) = l ++ Set_values (rev l ++ seen) l2.
Proof.
  induction l as [|y l IH]; intros seen l2 Hnd Hdis; [done|].
  apply NoDup_cons in Hnd as [Hy Hnd].
  cbn [app Set_values]. rewrite bool_decide_eq_false_2 by (apply Hdis; left).
  f_equal. rewrite IH; [|done|].
  - cbn [rev]. by rewrite <- app_assoc.
  - intros x Hx [->|Hs]%elem_of_cons; [done|]. apply (Hdis x); [by right|done].
Qed.

(** When the second list only repeats tags of a duplicate-free first
    list, the union is the first list. *)
Lemma Set_values_absorb l l2 :
  NoDup l -> (forall x, x ∈ l2 -> x ∈ l) -> Set_values [] (l ++ l2) = l.
Proof.
  intros Hnd Hsub. rewrite Set_values_NoDup_prefix; [|done|].
  - rewrite Set_values_all_seen; [by rewrite app_nil_r|].
    intros x Hx. rewrite app_nil_r. apply list_elem_of_In, in_rev.
    rewrite rev_involutive. by apply list_elem_of_In, Hsub.
  - intros x _. apply not_elem_of_nil.
Qed.

Lemma scorer_tags_NoDup (Math_sqrt : Q -> Q) trade market stats isWhale :
  NoDup (snd (analyzeTradeHeuristics Math_sqrt trade market stats isWhale)).
Proof.
  rewrite scorer_closed_form. cbn zeta.
  destruct (zTag_distinct (calculateDynamicZScore Math_sqrt (size trade) stats))
    as (H1 & H2 & H3 & H4).
  destruct (gt _ 3), (gt (liquidity market) 0 && _), (lt _ _ && _),
    (default false isWhale), (bool_decide _); cbn [fst snd app];
    repeat (apply NoDup_cons_2;
            [rewrite ?not_elem_of_cons; repeat split;
             first [done | apply not_elem_of_nil]|]);
    apply NoDup_nil_2.
Qed.

Lemma analyzedIds_app l1 l2 :
  analyzedIds (l1 ++ l2) = analyzedIds l1 ++ analyzedIds l2.
Proof.
  induction l1 as [|[]] ; cbn [app analyzedIds]; [done|done|done|].
  by rewrite IHl1.
Qed.

Lemma walletCalls_app l1 l2 :
  walletCalls (l1 ++ l2) = walletCalls l1 ++ walletCalls l2.
Proof.
  induction l1 as [|[]] ; cbn [app walletCalls]; [done|done| |done].
  by rewrite IHl1.
Qed.

Lemma whaleCalls_app l1 l2 :
  whaleCalls (l1 ++ l2) = whaleCalls l1 ++ whaleCalls l2.
Proof.
  induction l1 as [|[]] ; cbn [app whaleCalls]; [done| |done|done].
  by rewrite IHl1.
Qed.

Section EvaluateMore.

Variable Math_sqrt : Q -> Q.
Variable simulationMode : bool.
Variable holders : string -> option (list string).
Variable firstSeen : string -> option Z.
Variable now : Z.
Variable analyze : Trade -> PolymarketMarket -> list string ->
                   option WalletStats -> completion GeminiAnalysisResponse.

Abbreviation evaluate' := (evaluateTrade Math_sqrt simulationMode holders firstSeen now analyze).
Abbreviation evaluateMany' := (evaluateAll Math_sqrt simulationMode holders firstSeen now analyze).
Abbreviation score' := (scored Math_sqrt simulationMode holders now).
Abbreviation wallet' trade := (fetchWalletStats firstSeen now (makerAddress trade) simulationMode).

(** X7.  The factor tags of an alert are the scorer's tags, in the
    scorer's order, followed by those analyzer tags that are new; no tag
    occurs twice, and every tag of either source is there. *)
Theorem alert_factors_are_the_duplicate_free_union
    (trade : Trade) (market : PolymarketMarket) (st : AppState)
    (analysis : GeminiAnalysisResponse) :
  trade_id trade ∉ processedTradeIds st ->
  10 < fst (score' trade market st) ->
  analyze trade market (snd (score' trade market st)) (wallet' trade)
  = Returns analysis ->
  exists a more,
    fst (evaluate' trade market st) = Returns (Some a) /\
    factors a = snd (score' trade market st) ++ more /\
    NoDup (factors a) /\
    forall f, f ∈ factors a
      <-> f ∈ snd (score' trade market st) \/ f ∈ g_factors analysis.
Proof.
  intros Hnew Hhigh Han.
  destruct (evaluateTrade_alert Math_sqrt simulationMode holders firstSeen now
              analyze trade market st analysis Hnew Hhigh Han)
    as (a & Ha & _ & _ & Hf).
  exists a. eexists. split; [exact Ha|]. rewrite Hf.
  destruct (Set_values_spec (snd (score' trade market st) ++ g_factors analysis) [])
    as [Hnd Hel].
  split; [|split; [exact Hnd|]].
  - apply Set_values_NoDup_prefix; [apply scorer_tags_NoDup|].
    intros x _. apply not_elem_of_nil.
  - intros f. rewrite Hel, elem_of_app. split; [tauto|].
    intros H. split; [done|apply not_elem_of_nil].
Qed.

(** The ledger of trade ids only grows, and contains every evaluated id. *)
Lemma evaluateAll_marks_jobs jobs : forall st j,
  j ∈ jobs -> trade_id (fst j) ∈ processedTradeIds (snd (evaluateMany' jobs st)).
Proof.
  induction jobs as [|[t m] jobs IH]; intros st j Hj.
  - by apply elem_of_nil in Hj.
  - cbn [evaluateAll].
    pose proof (evaluateTrade_processed Math_sqrt simulationMode holders
                  firstSeen now analyze t m st) as Hp.
    destruct (evaluate' t m st) as [c st1]. cbn [snd] in Hp.
    pose proof (evaluateAll_processed Math_sqrt simulationMode holders
                  firstSeen now analyze jobs st1) as Hmono.
    specialize (IH st1 j).
    destruct (evaluateMany' jobs st1) as [alerts st2]. cbn [snd] in *.
    apply elem_of_cons in Hj as [->|Hj]; [|by apply IH].
    apply Hmono. rewrite Hp. cbn [fst]. set_solver.
Qed.

Lemma evaluateAll_app jobs1 jobs2 st :
  evaluateMany' (jobs1 ++ jobs2) st
  = (fst (evaluateMany' jobs1 st)
       ++ fst (evaluateMany' jobs2 (snd (evaluateMany' jobs1 st))),
     snd (evaluateMany' jobs2 (snd (evaluateMany' jobs1 st)))).
Proof.
  revert st. induction jobs1 as [|[t m] jobs1 IH]; intros st.
  - cbn. by destruct (evaluateMany' jobs2 st).
  - cbn [app evaluateAll]. destruct (evaluate' t m st) as [c st1].
    rewrite IH. destruct (evaluateMany' jobs1 st1) as [a1 s1]. cbn [fst snd].
    by destruct c as [[a|]|e].
Qed.

Lemma evaluateAll_all_seen jobs st :
  (forall j, j ∈ jobs -> trade_id (fst j) ∈ processedTradeIds st) ->
  evaluateMany' jobs st = ([], st).
Proof.
  induction jobs as [|[t m] jobs IH]; intros H; [done|].
  cbn [evaluateAll].
  rewrite evaluateTrade_seen by (apply (H (t, m)); left).
  rewrite IH; [done|]. intros j Hj. apply H. by right.
Qed.

(** X8.  Trades that are delivered again change nothing: a batch followed
    by trades whose ids were already processed, or occur in the batch,
    yields the same alerts and leaves the same state (dedup ledger,
    statistics, external calls) as the batch alone. *)
Theorem redelivered_trades_are_ignored
    (jobs again : list (Trade * PolymarketMarket)) (st : AppState) :
  (forall j, j ∈ again ->
     trade_id (fst j) ∈ processedTradeIds st \/
     exists j', j' ∈ jobs /\ trade_id (fst j') = trade_id (fst j)) ->
  evaluateMany' (jobs ++ again) st = evaluateMany' jobs st.
Proof.
  intros H. rewrite evaluateAll_app.
  rewrite (evaluateAll_all_seen again).
  - destruct (evaluateMany' jobs st) as [alerts st1]. simpl.
    by rewrite app_nil_r.
  - intros j Hj. destruct (H j Hj) as [Hin|(j' & Hj' & <-)].
    + by apply (evaluateAll_processed Math_sqrt simulationMode holders
                  firstSeen now analyze jobs st).
    + by apply evaluateAll_marks_jobs.
Qed.

(** What one evaluation adds to the trace of external calls. *)
Lemma evaluateTrade_trace trade market st :
  let st' := snd (evaluate' trade market st) in
  (analyzedIds (oracleTrace st') = analyzedIds (oracleTrace st) /\
   walletCalls (oracleTrace st') = walletCalls (oracleTrace st)) \/
  ((trade_id trade ∉ processedTradeIds st) /\
   10 < fst (score' trade market st) /\
   analyzedIds (oracleTrace st') = analyzedIds (oracleTrace st) ++ [trade_id trade] /\
   walletCalls (oracleTrace st')
   = walletCalls (oracleTrace st) ++ [makerAddress trade]).
Proof.
  destruct (decide (trade_id trade ∈ processedTradeIds st)) as [Hin|Hnew].
  - left. by rewrite evaluateTrade_seen.
  - rewrite evaluateTrade_fresh by done. cbn zeta.
    destruct (10 <? fst (score' trade market st)) eqn:Hs.
    + right. apply Z.ltb_lt in Hs. split; [done|]. split; [done|].
      destruct (analyze _ _ _ _); cbn [snd oracleTrace];
        rewrite analyzedIds_app, walletCalls_app; cbn;
        destruct simulationMode;
        rewrite ?analyzedIds_app, ?walletCalls_app; cbn;
        by rewrite ?app_nil_r.
    + left. cbn [snd oracleTrace]. destruct simulationMode; [done|].
      rewrite analyzedIds_app, walletCalls_app. cbn. by rewrite !app_nil_r.
Qed.

Lemma evaluateAll_trace_inv jobs : forall st,
  NoDup (analyzedIds (oracleTrace st)) ->
  (forall tid, tid ∈ analyzedIds (oracleTrace st) -> tid ∈ processedTradeIds st) ->
  let st' := snd (evaluateMany' jobs st) in
  NoDup (analyzedIds (oracleTrace st')) /\
  (forall tid, tid ∈ analyzedIds (oracleTrace st') -> tid ∈ processedTradeIds st') /\
  (length (analyzedIds (oracleTrace st'))
   <= length (analyzedIds (oracleTrace st)) + length jobs)%nat /\
  (length (walletCalls (oracleTrace st')) + length (analyzedIds (oracleTrace st))
   = length (analyzedIds (oracleTrace st')) + length (walletCalls (oracleTrace st)))%nat.
Proof.
  induction jobs as [|[t m] jobs IH]; intros st Hnd Hsub.
  - cbn. repeat split; try done; lia.
  - cbn [evaluateAll].
    pose proof (evaluateTrade_processed Math_sqrt simulationMode holders
                  firstSeen now analyze t m st) as Hp.
    pose proof (evaluateTrade_trace t m st) as Htr. cbv zeta in Htr.
    destruct (evaluate' t m st) as [c st1]. cbn [snd] in Hp, Htr.
    assert (Hnd1 : NoDup (analyzedIds (oracleTrace st1))).
    { destruct Htr as [[Ea _]|(Hnew & _ & Ea & _)]; rewrite Ea; [done|].
      apply NoDup_app. split; [done|]. split; [|apply NoDup_singleton].
      intros x Hx ->%list_elem_of_singleton. by apply Hnew, Hsub. }
    assert (Hsub1 : forall tid, tid ∈ analyzedIds (oracleTrace st1) ->
                                tid ∈ processedTradeIds st1).
    { intros tid. rewrite Hp.
      destruct Htr as [[Ea _]|(_ & _ & Ea & _)]; rewrite Ea.
      - intros ?%Hsub. set_solver.
      - intros [?%Hsub | ->%list_elem_of_singleton]%elem_of_app; set_solver. }
    specialize (IH st1 Hnd1 Hsub1). cbv zeta in IH.
    destruct (evaluateMany' jobs st1) as [alerts st2]. cbn [snd] in *.
    destruct IH as (H1 & H2 & H3 & H4).
    split; [done|]. split; [done|].
    destruct Htr as [[Ea Ew]|(_ & _ & Ea & Ew)]; rewrite Ea, Ew in *;
      rewrite ?length_app in *; cbn [length] in *; repeat split; lia.
Qed.

(** X9.  Over any sequence of evaluations of a fresh process, the
    analyzer is called at most once per trade id and only for ids that are
    in the dedup ledger, the wallet oracle is called exactly as often as the
    analyzer, and neither is called more often than there were
    evaluations; an evaluation that is gated or scores 10 or less calls
    neither. *)
Theorem analyzer_is_called_at_most_once_per_trade_id
    (jobs : list (Trade * PolymarketMarket)) :
  let st := snd (evaluateMany' jobs initialState) in
  NoDup (analyzedIds (oracleTrace st)) /\
  (forall tid, tid ∈ analyzedIds (oracleTrace st) -> tid ∈ processedTradeIds st) /\
  (length (analyzedIds (oracleTrace st)) <= length jobs)%nat /\
  length (walletCalls (oracleTrace st)) = length (analyzedIds (oracleTrace st)) /\
  (forall trade market st0,
     trade_id trade ∈ processedTradeIds st0 \/ fst (score' trade market st0) <= 10 ->
     analyzedIds (oracleTrace (snd (evaluate' trade market st0)))
     = analyzedIds (oracleTrace st0) /\
     walletCalls (oracleTrace (snd (evaluate' trade market st0)))
     = walletCalls (oracleTrace st0)).
Proof.
  intros st.
  destruct (evaluateAll_trace_inv jobs initialState) as (H1 & H2 & H3 & H4).
  { constructor. }
  { intros tid Hin. by apply elem_of_nil in Hin. }
  fold st in H1, H2, H3, H4. cbn in H3, H4.
  split; [done|]. split; [done|]. split; [done|]. split; [lia|].
  intros trade market st0 Hcase.
  destruct (evaluateTrade_trace trade market st0) as [?|(Hnew & Hhigh & _)]; [done|].
  destruct Hcase; [done|lia].
Qed.

End EvaluateMore.

(** The backtest trade in simulation mode, the analyzer answering with a
    new tag and a repeated one. *)
Lemma alert_factors_are_the_duplicate_free_union_witness :
  exists a,
    fst (evaluateTrade sqrt52 true noHolders noActivity demoNow analyzeTagged
           (generateBacktestScenario demoNow) demoMarket initialState)
    = Returns (Some a) /\
    factors a = ["High Size Z=116.0"; "Significant Liquidity Impact";
                 "Speculative Accumulation"; "Blacklisted/Known Insider";
                 "Fresh Wallet"]%string.
Proof.
  destruct (alert_factors_are_the_duplicate_free_union sqrt52 true noHolders
              noActivity demoNow analyzeTagged
              (generateBacktestScenario demoNow) demoMarket initialState
              {| g_suspicionScore := 70;
                 g_reasoning := "Fresh wallet, long odds";
                 riskLevel := HIGH;
                 g_factors := ["Fresh Wallet"; "Blacklisted/Known Insider"]%string |})
    as (a & more & Ha & _ & _ & _).
  - apply not_elem_of_empty.
  - by vm_compute.
  - reflexivity.
  - exists a. split; [exact Ha|].
    assert (E : Some a = Some a) by reflexivity.
    revert Ha. vm_compute. by intros [= <-].
Defined.

(** The four quiet trades, the first of them delivered again. *)
Lemma redelivered_trades_are_ignored_witness :
  evaluateAllDemo (fourQuietTrades ++ [(quietTrade "t1" 500 1, demoMarket)])
    initialState
  = evaluateAllDemo fourQuietTrades initialState.
Proof.
  apply redelivered_trades_are_ignored.
  intros j ->%list_elem_of_singleton. right.
  exists (quietTrade "t1" 500 1, demoMarket). split; [|reflexivity].
  apply list_elem_of_here.
Defined.

(** ** The evaluation together with the analyzer *)

Section EvaluateWithAnalyzer.

Variable Math_sqrt : Q -> Q.
Variable holders : string -> option (list string).
Variable firstSeen : string -> option Z.
Variable now : Z.
Variable generateContent : PromptFacts -> completion string.
Variable parseResponse : string -> completion GeminiAnalysisResponse.

(** X10.  When every analyzer request is rejected, an evaluation with the
    guarded revision of [analyzeSuspicion] still returns an alert for every
    new trade that scores above 10: its tags are exactly the scorer's, its
    reasoning is the fallback text, and its score is the rounded average of
    the base score and min(50, 15 x number of tags), hence at most 105. *)
Theorem evaluation_with_analyzer_down_returns_heuristic_alert
    (simulationMode : bool) (trade : Trade) (market : PolymarketMarket)
    (st : AppState) :
  let sc := scored Math_sqrt simulationMode holders now trade market st in
  let fallbackScore := Z.min 50 (15 * Z.of_nat (length (snd sc))) in
  trade_id trade ∉ processedTradeIds st ->
  10 < fst sc ->
  (forall prompt, exists e, generateContent prompt = Throws e) ->
  exists a,
    fst (evaluateTrade Math_sqrt simulationMode holders firstSeen now
           (analyzeSuspicion generateContent parseResponse) trade market st)
    = Returns (Some a) /\
    alert_id a = trade_id trade /\
    factors a = snd sc /\
    reasoning a = "AI Unavailable - Heuristic Estimate Only"%string /\
    suspicionScore a
    = Math_round ((inject_Z (fst sc) + inject_Z fallbackScore) / 2) /\
    suspicionScore a <= 105.
Proof.
  intros sc fallbackScore Hnew Hhigh Hdown.
  assert (Han : analyzeSuspicion generateContent parseResponse trade market
                  (snd sc)
                  (fetchWalletStats firstSeen now (makerAddress trade) simulationMode)
                = Returns (heuristicFallback (snd sc))).
  { unfold analyzeSuspicion, tryAnalyze.
    destruct (Hdown {| p_market := market; p_trade := trade;
                       p_walletAgeDays :=
                         accountAgeDays <$>
                           fetchWalletStats firstSeen now (makerAddress trade)
                             simulationMode;
                       p_flags := snd sc |}) as [e ->]. reflexivity. }
  rewrite evaluateTrade_fresh by done. cbv zeta. fold sc.
  replace (10 <? fst sc) with true by (symmetry; by apply Z.ltb_lt).
  rewrite Han. eexists. split; [reflexivity|].
  cbn [alert_id factors reasoning suspicionScore].
  assert (Hscore : g_suspicionScore (heuristicFallback (snd sc))
                   = inject_Z fallbackScore).
  { unfold heuristicFallback, Math_min, fallbackScore. cbn [g_suspicionScore].
    by rewrite Z.mul_comm. }
  split; [done|]. split.
  { apply Set_values_absorb; [apply scorer_tags_NoDup|].
    intros x Hx. cbn [heuristicFallback g_factors] in Hx.
    by apply subseteq_take in Hx. }
  split; [done|].
  rewrite Hscore. unfold fuse. cbn [fst]. split; [done|].
  apply Math_round_le.
  assert (H160 : fst sc <= 160).
  { unfold sc, scored.
    match goal with
    | |- fst (analyzeTradeHeuristics ?f ?t ?m ?s ?w) <= _ =>
        rewrite (scorer_closed_form f t m s w)
    end.
    cbn zeta. cbn [fst].
    repeat match goal with
           | |- context [if ?b then _ else _] => destruct b
           end; lia. }
  assert (H50 : fallbackScore <= 50) by (unfold fallbackScore; lia).
  rewrite Zle_Qle in H160, H50. revert H160 H50.
  change (inject_Z 160) with 160%Q. change (inject_Z 50) with 50%Q.
  change (inject_Z 105) with 105%Q.
  generalize (inject_Z (fst sc)) (inject_Z fallbackScore). intros p q Hp Hq.
  assert (E : ((p + q) / 2 == (p + q) * (1 # 2))%Q) by field.
  rewrite E. lra.
Qed.

End EvaluateWithAnalyzer.

(** The backtest trade in simulation mode with the analyzer down: four
    tags, fallback score 50, final score 90. *)
Lemma evaluation_with_analyzer_down_returns_heuristic_alert_witness :
  exists a,
    fst (evaluateDemo (generateBacktestScenario demoNow) demoMarket initialState)
    = Returns (Some a) /\
    suspicionScore a = 90.
Proof.
  destruct (evaluation_with_analyzer_down_returns_heuristic_alert sqrt52
              noHolders noActivity demoNow analyzerDown parseNothing true
              (generateBacktestScenario demoNow) demoMarket initialState)
    as (a & Ha & _ & _ & _ & Hs & _).
  - apply not_elem_of_empty.
  - by vm_compute.
  - intros prompt. by eexists.
  - exists a. split; [exact Ha|]. rewrite Hs. by vm_compute.
Defined.

(** ** The ledger keeps the best-ranked alerts *)

(** X12.  The cap drops the worst: every alert that survives the
    deduplication of a merge but is not retained ranks no better (score,
    then timestamp) than every retained alert. *)
Theorem retained_alerts_outrank_dropped_ones
    (validAlerts prev : list SuspiciousActivity) (a b : SuspiciousActivity) :
  a ∈ mergeAlerts validAlerts prev ->
  lastAlertWithId (alert_id b) (validAlerts ++ prev) = Some b ->
  alert_id b ∉ map alert_id (mergeAlerts validAlerts prev) ->
  ranksBefore a b /\ (length (mergeAlerts validAlerts prev) = 50)%nat.
Proof.
  unfold mergeAlerts. set (next := validAlerts ++ prev).
  destruct (unique_spec next) as (Hnd & Hel & Hlen).
  set (unique := Map_values _) in *.
  set (sorted := Array_sort alertCompare unique).
  intros Ha Hb Hdropped.
  assert (Hsorted : StronglySorted ranksBefore (take 50 sorted ++ drop 50 sorted)).
  { rewrite take_drop. apply Array_sort_sorted;
      [apply ranksBefore_transitive | apply alertCompare_le
      | apply alertCompare_gt]. }
  assert (Hbs : b ∈ take 50 sorted ++ drop 50 sorted).
  { rewrite take_drop. unfold sorted. rewrite Array_sort_perm. by apply Hel. }
  apply elem_of_app in Hbs as [Hbt|Hbd].
  { exfalso. apply Hdropped. by apply (list_elem_of_fmap_2 alert_id). }
  split; [by apply (StronglySorted_app_1_elem_of _ _ _ _ _ Hsorted)|].
  rewrite length_take. apply Nat.min_l.
  destruct (decide (50 <= length sorted)%nat) as [|Hshort]; [done|].
  rewrite drop_ge in Hbd by lia. by apply elem_of_nil in Hbd.
Qed.

(** Fifty-one alerts scored 0 to 50: the one scored 0 is dropped, the one
    scored 50 leads the ledger. *)
Lemma retained_alerts_outrank_dropped_ones_witness :
  ranksBefore (sampleAlert "50" 50 50) (sampleAlert "0" 0 0).
Proof.
  apply (retained_alerts_outrank_dropped_ones manyAlerts []).
  - apply (list_elem_of_lookup_2 _ 0%nat). by vm_compute.
  - by vm_compute.
  - assert (H : bool_decide (alert_id (sampleAlert "0" 0 0)
                             ∈ map alert_id (mergeAlerts manyAlerts [])) = false)
      by (by vm_compute).
    by apply bool_decide_eq_false in H.
Defined.

(** ** The bounded concurrent evaluator: the bound *)

Section ProcessQueueBound.

Context {T R S K : Type}.
Variable start : T -> S -> K * S.
Variable settle : K -> completion (option R).

Abbreviation pool' := (PoolState T R S K).

Local Open Scope nat_scope.

Lemma workerLoop_sizes (st : pool') :
  (queue st = [] /\ workerLoop start st = st) \/
  (length (queue (workerLoop start st)) + 1 = length (queue st) /\
   length (inFlight (workerLoop start st)) = length (inFlight st) + 1).
Proof.
  unfold workerLoop. destruct (queue st) as [|x rest] eqn:E; [by left|].
  right. destruct (start x (shared st)) as [k s]. cbn [queue inFlight length].
  rewrite length_app. cbn. lia.
Qed.

Lemma spawn_sizes (items : list T) (concurrency : nat) (s0 : S) :
  let st : pool' := spawn start items concurrency s0 in
  length (inFlight st) = Nat.min (length items) concurrency /\
  length (queue st) = length items - Nat.min (length items) concurrency.
Proof.
  cbv zeta. unfold spawn.
  assert (H : forall n, n <= length items ->
    let st : pool' := Nat.iter n (workerLoop start)
                {| queue := items; inFlight := []; results := []; shared := s0 |} in
    length (inFlight st) = n /\ length (queue st) = length items - n).
  { induction n as [|n IH]; intros Hn; [cbn; lia|].
    cbv zeta. rewrite Nat.iter_succ.
    destruct IH as [Hf Hq]; [lia|].
    destruct (workerLoop_sizes (Nat.iter n (workerLoop start)
                {| queue := items; inFlight := []; results := []; shared := s0 |}))
      as [[Hempty _]|[H1 H2]].
    - rewrite Hempty in Hq. cbn in Hq. lia.
    - lia. }
  apply H. lia.
Qed.

(** X13.  In every reachable state of the pool at most [concurrency]
    evaluations are in flight, and as long as a candidate is waiting in the
    queue exactly [concurrency] are: the pool never exceeds its limit and
    never idles a worker while work is left. *)
Theorem pool_never_exceeds_its_concurrency_limit
    (items : list T) (concurrency : nat) (s0 : S) (n : nat) (st : pool') :
  nsteps (poolStep start settle) n (spawn start items concurrency s0) st ->
  length (inFlight st) <= concurrency /\
  (queue st <> [] -> length (inFlight st) = concurrency).
Proof.
  assert (Hstep : forall st1 st2 : pool',
    poolStep start settle st1 st2 ->
    length (inFlight st1) <= concurrency /\
    (queue st1 <> [] -> length (inFlight st1) = concurrency) ->
    length (inFlight st2) <= concurrency /\
    (queue st2 <> [] -> length (inFlight st2) = concurrency)).
  { intros st1 st2 [i Hi] [Hle Hfull]. unfold settleAt in Hi.
    destruct (inFlight st1 !! i) as [k|] eqn:Ei; [|done].
    injection Hi as <-.
    pose proof (lookup_lt_Some _ _ _ Ei) as Hlt.
    match goal with
    | |- context [workerLoop start ?s] => destruct (workerLoop_sizes s) as [[Hq ->]|[H1 H2]]
    end; cbn [queue inFlight] in *.
    - rewrite length_delete by eauto. split; [lia|]. by intros [].
    - rewrite H2, length_delete by eauto.
      assert (queue st1 <> []) by (destruct (queue st1); [cbn in H1; lia|done]).
      specialize (Hfull ltac:(done)). split; lia. }
  intros Hrun.
  assert (Hinit : let st0 : pool' := spawn start items concurrency s0 in
                  length (inFlight st0) <= concurrency /\
                  (queue st0 <> [] -> length (inFlight st0) = concurrency)).
  { destruct (spawn_sizes items concurrency s0) as [Hf Hq]. cbv zeta.
    split; [lia|]. intros Hne.
    destruct (queue (spawn start items concurrency s0)) eqn:E; [done|].
    cbn [length] in Hq. lia. }
  revert Hinit. cbv zeta.
  induction Hrun as [st|n st st1 st2 Hs Hrun IH]; [done|].
  intros Hinit. apply IH. by apply (Hstep st st1).
Qed.

End ProcessQueueBound.

(** The live batch after its third candidate has settled. *)
Lemma pool_never_exceeds_its_concurrency_limit_witness :
  exists st,
    runSchedule liveEvaluate liveSettle [2]%nat
      (spawn liveEvaluate liveCandidates 3 initialState) = Some st /\
    (length (inFlight st) <= 3)%nat.
Proof.
  destruct (runSchedule liveEvaluate liveSettle [2]%nat
              (spawn liveEvaluate liveCandidates 3 initialState))
    as [st|] eqn:Erun; [|by vm_compute in Erun].
  exists st. split; [done|].
  apply (pool_never_exceeds_its_concurrency_limit liveEvaluate liveSettle
           liveCandidates 3 initialState 1 st
           (runSchedule_nsteps liveEvaluate liveSettle _ _ _ Erun)).
Defined.

(** ** Proxy mode and the data feed *)

(** X14.  The proxy switch round-trips through [localStorage]: after
    [setLocalProxyMode b] the proxy state reads [b], whatever was stored
    before, no other key is touched, and the base URLs are the local ones
    exactly when [b] is true. *)
Theorem proxy_mode_round_trip (enabled : bool) (localStorage : gmap string string) :
  getProxyState (setLocalProxyMode enabled localStorage) = enabled /\
  (forall key, key <> "ps_local_proxy"%string ->
     setLocalProxyMode enabled localStorage !! key = localStorage !! key) /\
  getBaseUrls (setLocalProxyMode enabled localStorage)
  = (if enabled
     then {| gamma := "http://localhost:8011/proxy";
             data := "http://localhost:8010/proxy" |}
     else {| gamma := "https://gamma-api.polymarket.com";
             data := "https://data-api.polymarket.com" |}) /\
  getProxyState ∅ = false.
Proof.
  assert (H : getProxyState (setLocalProxyMode enabled localStorage) = enabled).
  { unfold getProxyState, setLocalProxyMode. rewrite lookup_insert_eq.
    by destruct enabled. }
  split; [done|]. split.
  - intros key Hk. unfold setLocalProxyMode. by rewrite lookup_insert_ne.
  - split; [|done]. unfold getBaseUrls. by rewrite H.
Qed.

Section DataFeedFacts.

Variable fetch : string -> completion Response.
Variable encodeURIComponent : string -> string.
Variable tradesJson : Response -> completion (option (list RawTrade)).
Variable parseFloat : string -> Q.
Variable parseInt : string -> Z.

Lemma tryProxies_spec proxies url :
  match tryProxies fetch proxies url with
  | Returns response =>
      ok response = true /\
      exists i proxyGen,
        proxies !! i = Some proxyGen /\
        fetch (proxyGen url) = Returns response /\
        forall j earlier, (j < i)%nat -> proxies !! j = Some earlier ->
                          attemptFails fetch (earlier url)
  | Throws e =>
      e = "CORS Blocked"%string /\
      forall proxyGen, proxyGen ∈ proxies -> attemptFails fetch (proxyGen url)
  end.
Proof.
  induction proxies as [|p rest IH]; cbn [tryProxies].
  - split; [done|]. intros ? Hin. by apply elem_of_nil in Hin.
  - destruct (fetch (p url)) as [response|e] eqn:Ep.
    + destruct (ok response) eqn:Eok.
      * split; [done|]. exists 0%nat, p. split; [done|]. split; [done|].
        intros j earlier Hj. lia.
      * destruct (tryProxies fetch rest url) as [r|e'].
        -- destruct IH as (Hok & i & g & Hi & Hg & Hfail).
           split; [done|]. exists (S i), g. split; [done|]. split; [done|].
           intros [|j] earlier Hj Hl.
           ++ injection Hl as <-. unfold attemptFails. by rewrite Ep.
           ++ apply (Hfail j); [lia|done].
        -- destruct IH as [-> Hall]. split; [done|].
           intros g [->|Hin]%elem_of_cons; [|by apply Hall].
           unfold attemptFails. by rewrite Ep.
    + destruct (tryProxies fetch rest url) as [r|e'].
      * destruct IH as (Hok & i & g & Hi & Hg & Hfail).
        split; [done|]. exists (S i), g. split; [done|]. split; [done|].
        intros [|j] earlier Hj Hl.
        -- injection Hl as <-. unfold attemptFails. by rewrite Ep.
        -- apply (Hfail j); [lia|done].
      * destruct IH as [-> Hall]. split; [done|].
        intros g [->|Hin]%elem_of_cons; [|by apply Hall].
        unfold attemptFails. by rewrite Ep.
Qed.

(** X15.  [fetchWithCorsFallback] never hands a response that is not [ok]
    to its caller.  Through the public proxies it returns the answer of the
    first proxy, in the order of the list, whose request succeeds, and throws
    "CORS Blocked" only when all three fail; in local proxy mode it asks the
    given URL once and throws instead of trying the public proxies. *)
Theorem fetchWithCorsFallback_returns_only_ok_responses
    (localStorage : gmap string string) (url : string) :
  (forall response,
     fetchWithCorsFallback fetch encodeURIComponent localStorage url
     = Returns response -> ok response = true) /\
  (getProxyState localStorage = false ->
   match fetchWithCorsFallback fetch encodeURIComponent localStorage url with
   | Returns response =>
       exists i proxyGen,
         PROXIES encodeURIComponent !! i = Some proxyGen /\
         fetch (proxyGen url) = Returns response /\
         forall j earlier, (j < i)%nat ->
           PROXIES encodeURIComponent !! j = Some earlier ->
           attemptFails fetch (earlier url)
   | Throws e =>
       e = "CORS Blocked"%string /\
       forall proxyGen, proxyGen ∈ PROXIES encodeURIComponent ->
                        attemptFails fetch (proxyGen url)
   end) /\
  (getProxyState localStorage = true ->
   match fetchWithCorsFallback fetch encodeURIComponent localStorage url with
   | Returns response => fetch url = Returns response
   | Throws e => attemptFails fetch url
   end).
Proof.
  unfold fetchWithCorsFallback.
  pose proof (tryProxies_spec (PROXIES encodeURIComponent) url) as Hpub.
  destruct (getProxyState localStorage).
  - split; [|split; [done|]].
    + intros response. destruct (fetch url) as [r|e]; [|done].
      destruct (ok r) eqn:Eok; cbn [negb]; [|done]. by intros [= <-].
    + intros _. unfold attemptFails.
      destruct (fetch url) as [r|e]; [|done].
      by destruct (ok r) eqn:Eok; cbn [negb].
  - split; [|split; [|done]].
    + intros response E. rewrite E in Hpub. by destruct Hpub.
    + intros _. destruct (tryProxies _ _ _) as [r|e]; [by destruct Hpub|done].
Qed.

Lemma tradeOfRecord_spec targetMarkets now record t :
  t ∈ tradeOfRecord parseFloat parseInt targetMarkets now record ->
  (exists market,
     List.find (fun m => bool_decide (market_id m = marketId t)) targetMarkets
       = Some market /\
     marketId t = market_id market /\ marketQuestion t = question market) /\
  now - WINDOW_MS < timestamp t.
Proof.
  unfold tradeOfRecord.
  destruct (List.find _ targetMarkets) as [market|] eqn:Ef;
    [|by intros ?%elem_of_nil].
  destruct (now - WINDOW_MS <? _) eqn:Ew; [|by intros ?%elem_of_nil].
  apply Z.ltb_lt in Ew. intros ->%list_elem_of_singleton.
  cbn [marketId marketQuestion timestamp].
  split; [|done]. exists market. split; [|done].
  pose proof (find_some _ _ Ef) as [_ Hid]. apply bool_decide_eq_true in Hid.
  rewrite Hid. exact Ef.
Qed.

(** A trade of the feed was built from the first of the first eight markets
    that has its market id. *)
Lemma fetched_trade_origin markets useSimulation localStorage now t :
  t ∈ fetchRecentTrades fetch encodeURIComponent tradesJson parseFloat parseInt
        markets useSimulation localStorage now ->
  (exists market,
     List.find (fun m => bool_decide (market_id m = marketId t)) (take 8 markets)
       = Some market /\
     marketId t = market_id market /\ marketQuestion t = question market) /\
  now - WINDOW_MS < timestamp t.
Proof.
  unfold fetchRecentTrades.
  destruct (_ || _); [by intros ?%elem_of_nil|].
  destruct (fetchWithCorsFallback _ _ _ _) as [response|e];
    [|by intros ?%elem_of_nil].
  destruct (tradesJson response) as [[records|]|e];
    rewrite ?Array_sort_perm; try by intros ?%elem_of_nil.
  intros Ht%list_elem_of_In. apply in_concat in Ht as (l & Hl & Hin).
  apply in_map_iff in Hl as (record & <- & Hrec).
  apply list_elem_of_In in Hin. by apply tradeOfRecord_spec in Hin.
Qed.

(** X16.  Every trade [fetchRecentTrades] returns belongs to one of the
    first eight tracked markets and carries that market's id and question,
    is younger than 24 hours at the time of the call; the list is sorted newest first; and it is empty in simulation mode, without
    markets, and whenever the request or its decoding fails. *)
Theorem fetched_trades_are_recent_tracked_and_sorted
    (markets : list PolymarketMarket) (useSimulation : bool)
    (localStorage : gmap string string) (now : Z) :
  let trades :=
    fetchRecentTrades fetch encodeURIComponent tradesJson parseFloat parseInt
      markets useSimulation localStorage now in
  (forall t, t ∈ trades ->
     (exists market, market ∈ take 8 markets /\
        marketId t = market_id market /\ marketQuestion t = question market) /\
     now - WINDOW_MS < timestamp t) /\
  StronglySorted (fun a b => timestamp b <= timestamp a) trades /\
  (useSimulation = true \/ markets = [] -> trades = []) /\
  ((forall url, exists e,
      fetchWithCorsFallback fetch encodeURIComponent localStorage url = Throws e) ->
   trades = []) /\
  ((forall response, exists e, tradesJson response = Throws e) -> trades = []).
Proof.
  intros trades. unfold trades, fetchRecentTrades.
  assert (Hsorted : forall l : list Trade,
            StronglySorted (fun a b => timestamp b <= timestamp a)
              (Array_sort (fun a b => timestamp b - timestamp a) l)).
  { intros l. apply Array_sort_sorted.
    - intros a b c. lia.
    - intros a b. lia.
    - intros a b. lia. }
  destruct ((length markets =? 0)%nat || useSimulation) eqn:Eguard.
  { split; [by intros t ?%elem_of_nil|]. split; [constructor|]. done. }
  apply orb_false_iff in Eguard as [Elen ->]. apply Nat.eqb_neq in Elen.
  assert (Hguard : ~ (false = true \/ markets = [])).
  { intros [?| ->]; done. }
  destruct (fetchWithCorsFallback _ _ _ _) as [response|e] eqn:Efetch.
  2: { split; [by intros t ?%elem_of_nil|]. split; [constructor|]. done. }
  destruct (tradesJson response) as [realData|e] eqn:Ejson.
  2: { split; [by intros t ?%elem_of_nil|]. split; [constructor|]. done. }
  split; [|split; [apply Hsorted|split; [done|split]]].
  - intros t Ht.
    assert (Ht' : t ∈ fetchRecentTrades fetch encodeURIComponent tradesJson
                    parseFloat parseInt markets false localStorage now).
    { unfold fetchRecentTrades.
      rewrite (proj2 (Nat.eqb_neq _ _) Elen), Efetch, Ejson. exact Ht. }
    destruct (fetched_trade_origin _ _ _ _ _ Ht') as ((market & Hf & H1 & H2) & Hw).
    split; [|done]. exists market. split; [|done].
    apply find_some in Hf as [Hin _]. by apply list_elem_of_In.
  - intros Hdown. destruct (Hdown (data (getBaseUrls localStorage) ++
      "/trades?market=" ++ String.concat "," (map market_id (take 8 markets))
      ++ "&limit=100")%string) as [e He].
    rewrite He in Efetch. done.
  - intros Hbad. destruct (Hbad response) as [e He]. rewrite He in Ejson. done.
Qed.

End DataFeedFacts.

(** ** The scan cycle: from the feed to the evaluation *)

Lemma find_take {A} (f : A -> bool) (n : nat) (l : list A) (x : A) :
  List.find f (take n l) = Some x -> List.find f l = Some x.
Proof.
  revert l. induction n as [|n IH]; intros [|y l]; simpl; try done.
  destruct (f y); [done|apply IH].
Qed.

Section ScanCycleFacts.

Variable Math_sqrt : Q -> Q.
Variable simulationMode : bool.
Variable holders : string -> option (list string).
Variable firstSeen : string -> option Z.
Variable analyze : Trade -> PolymarketMarket -> list string ->
                   option WalletStats -> completion GeminiAnalysisResponse.
Variable fetch : string -> completion Response.
Variable encodeURIComponent : string -> string.
Variable tradesJson : Response -> completion (option (list RawTrade)).
Variable parseFloat : string -> Q.
Variable parseInt : string -> Z.

(** X17.  Every trade [fetchRecentTrades] delivers for a market list is
    evaluated when [runCycle] hands it on: the lookup of its market in the
    same list succeeds, finds one of the first eight markets, the one whose
    id and question the trade carries, and the callback is [evaluateTrade]
    on that market; the [null] branch of the callback is never taken. *)
Theorem fetched_trades_always_find_their_market
    (currentMarkets : list PolymarketMarket) (localStorage : gmap string string)
    (fetchedAt now : Z) (st : AppState) (t : Trade)
    (Hfetched : t ∈ fetchRecentTrades fetch encodeURIComponent tradesJson
                      parseFloat parseInt currentMarkets simulationMode
                      localStorage fetchedAt) :
  exists market,
    market ∈ take 8 currentMarkets /\
    List.find (fun m => bool_decide (market_id m = marketId t)) currentMarkets
      = Some market /\
    market_id market = marketId t /\ question market = marketQuestion t /\
    evaluateCandidate Math_sqrt simulationMode holders firstSeen now analyze
      currentMarkets t st
    = evaluateTrade Math_sqrt simulationMode holders firstSeen now analyze
        t market st.
Proof.
  destruct (fetched_trade_origin _ _ _ _ _ _ _ _ _ _ Hfetched)
    as ((market & Hf & H1 & H2) & _).
  exists market. pose proof (find_take _ _ _ _ Hf) as Hall.
  split; [apply list_elem_of_In; by apply find_some in Hf as [? _]|].
  split; [done|]. split; [done|]. split; [done|].
  unfold evaluateCandidate. by rewrite Hall.
Qed.

End ScanCycleFacts.

Lemma fetched_trades_always_find_their_market_witness :
  exists t market,
    t ∈ demoFetch [demoMarket] /\
    market ∈ take 8 [demoMarket] /\
    market_id market = marketId t /\
    evaluateCandidate sqrt52 false noHolders noActivity demoNow analyzeOffline
      [demoMarket] t initialState
    = evaluateTrade sqrt52 false noHolders noActivity demoNow analyzeOffline
        t market initialState.
Proof.
  assert (Hin : hd (quietTrade "none" 0 0) (demoFetch [demoMarket])
                ∈ demoFetch [demoMarket]).
  { vm_compute. apply list_elem_of_here. }
  destruct (fetched_trades_always_find_their_market sqrt52 false noHolders
              noActivity analyzeOffline feedUp (fun u => u) demoTradesJson
              demoParseFloat demoParseInt [demoMarket] ∅ demoNow demoNow
              initialState _ Hin) as (market & H1 & _ & H3 & _ & H5).
  exists (hd (quietTrade "none" 0 0) (demoFetch [demoMarket])), market.
  done.
Defined.

(** ** The guard of the scan cycle *)

Lemma runScheduler_snoc events e s :
  runScheduler (events ++ [e]) s = schedulerStep (runScheduler events s) e.
Proof. unfold runScheduler. by rewrite fold_left_app. Qed.

(** X18.  As long as [stopScan] is not called, the guard of [runCycle] lets
    at most one cycle run at a time, whatever the order of timer ticks and
    completions: the flag is set exactly while one cycle is in flight. *)
Theorem guard_admits_one_cycle_without_stop (events : list SchedulerEvent)
    (Hnostop : StopScan ∉ events) :
  let s := runScheduler events idle in
  (cyclesInFlight s <= 1)%nat /\ (cycleRunningRef s = true <-> cyclesInFlight s = 1%nat).
Proof.
  induction events as [|e events IH] using rev_ind; [simpl; split; [lia|done]|].
  rewrite runScheduler_snoc. cbv zeta in *.
  apply not_elem_of_app in Hnostop as [Hev He%not_elem_of_cons].
  destruct (IH Hev) as [Hle Hiff]. clear IH.
  destruct (runScheduler events idle) as [flag n]. simpl in *.
  destruct e; simpl; [| |by destruct He].
  - destruct flag; simpl; [done|].
    assert (n = 0)%nat as -> by (destruct n as [|[|n]]; [done| |lia];
      by destruct Hiff as [_ Hn]; specialize (Hn eq_refl)).
    done.
  - destruct n as [|n]; simpl; [split; [lia|]; done|].
    split; [lia|]. split; [done|lia].
Qed.

Lemma guard_admits_one_cycle_without_stop_witness :
  let s := runScheduler [InvokeRunCycle; InvokeRunCycle; SettleRunCycle;
                         InvokeRunCycle; InvokeRunCycle] idle in
  (cyclesInFlight s <= 1)%nat /\ (cycleRunningRef s = true <-> cyclesInFlight s = 1%nat).
Proof.
  apply (guard_admits_one_cycle_without_stop
           [InvokeRunCycle; InvokeRunCycle; SettleRunCycle;
            InvokeRunCycle; InvokeRunCycle]).
  rewrite !not_elem_of_cons. repeat split; try done. apply not_elem_of_nil.
Defined.

Lemma restarts_accumulate (n : nat) (s : Scheduler) :
  cycleRunningRef s = false ->
  runScheduler (concat (repeat [InvokeRunCycle; StopScan] n)) s
  = {| cycleRunningRef := false; cyclesInFlight := n + cyclesInFlight s |}.
Proof.
  revert s. induction n as [|n IH]; intros [flag k] Hflag; simpl in *.
  - by subst.
  - subst flag. simpl. unfold runScheduler in IH. rewrite IH by done.
    simpl. f_equal. lia.
Qed.

(** X19.  [stopScan] clears the flag of a cycle that is still in flight, so
    the next invocation passes the guard: stopping and restarting [n] times
    while no cycle completes leaves [n] cycles in flight at once with the
    flag clear, and one more invocation starts another. *)
Theorem stop_lets_cycles_overlap (n : nat) :
  let restarts := concat (repeat [InvokeRunCycle; StopScan] n) in
  runScheduler restarts idle
  = {| cycleRunningRef := false; cyclesInFlight := n |} /\
  runScheduler (restarts ++ [InvokeRunCycle]) idle
  = {| cycleRunningRef := true; cyclesInFlight := S n |}.
Proof.
  cbv zeta. rewrite runScheduler_snoc, restarts_accumulate by done.
  simpl. rewrite Nat.add_0_r. done.
Qed.

(** ** The whale flag and the wallet statistics *)

Lemma elem_of_gated (b : bool) (x y : string) :
  x ∈ (if b then [y] else []) <-> b = true /\ x = y.
Proof.
  destruct b; rewrite ?list_elem_of_singleton, ?elem_of_nil; naive_solver.
Qed.

(** X20.  The scorer's whale tag is present exactly when the dashboard is in
    live mode, the holders request of the market succeeded, and the maker
    address equals one of the first ten holders up to letter case; the tag
    then comes with a base score of at least 30, which passes the
    qualification threshold of [evaluateTrade]. *)
Theorem whale_tag_matches_top_ten_holders (Math_sqrt : Q -> Q)
    (simulationMode : bool) (holders : string -> option (list string))
    (now : Z) (trade : Trade) (market : PolymarketMarket) (st : AppState) :
  let result := scored Math_sqrt simulationMode holders now trade market st in
  ("Verified Whale Activity"%string ∈ snd result <->
   simulationMode = false /\
   exists hs h, holders (market_id market) = Some hs /\ h ∈ take 10 hs /\
                toLowerCase h = toLowerCase (makerAddress trade)) /\
  ("Verified Whale Activity"%string ∈ snd result -> 30 <= fst result).
Proof.
  cbv zeta. unfold scored. rewrite scorer_closed_form. cbn zeta.
  cbn [fst snd default].
  set (z := calculateDynamicZScore _ _ _).
  destruct (zTag_distinct z) as (_ & _ & Hz & _).
  set (cz := gt z 3). set (cl := _ && _). set (cs := _ && _).
  set (ci := bool_decide _).
  assert (Hflag : whaleFlag simulationMode holders trade market = true <->
    simulationMode = false /\
    exists hs h, holders (market_id market) = Some hs /\ h ∈ take 10 hs /\
                 toLowerCase h = toLowerCase (makerAddress trade)).
  { unfold whaleFlag, fetchMarketWhales. destruct simulationMode; simpl.
    - split; [done|]. by intros [? _].
    - rewrite bool_decide_eq_true. destruct (holders _) as [hs|].
      + rewrite list_elem_of_In, in_map_iff. split.
        * intros (h & Heq & Hin%list_elem_of_In).
          split; [done|]. by exists hs, h.
        * intros (_ & hs' & h & [= <-] & Hin & Heq). exists h.
          by rewrite <- list_elem_of_In.
      + rewrite elem_of_nil. split; [done|]. by intros (_ & ? & ? & ? & _). }
  rewrite <- Hflag. clear Hflag.
  assert (Htag : "Verified Whale Activity"%string ∈
            (if cz then [("High Size Z=" ++ toFixed1 z)%string] else [])
            ++ (if cl then ["Significant Liquidity Impact"%string] else [])
            ++ (if cs then ["Speculative Accumulation"%string] else [])
            ++ (if whaleFlag simulationMode holders trade market
                then ["Verified Whale Activity"%string] else [])
            ++ (if ci then ["Blacklisted/Known Insider"%string] else [])
          <-> whaleFlag simulationMode holders trade market = true).
  { rewrite !elem_of_app, !elem_of_gated.
    split; [|by intros ->; right; right; right; left].
    intros [[_ H]|[[_ H]|[[_ H]|[[H _]|[_ H]]]]]; done. }
  split; [exact Htag|]. intros Hw%Htag. rewrite Hw.
  unfold id. destruct cz, cl, cs, ci; lia.
Qed.

(** X21.  In live mode the wallet statistics do not depend on the unit of
    the first-activity timestamp: an instant between 10^7 and 10^10 seconds
    gives the same statistics whether the endpoint reports it in seconds or
    in milliseconds; the trade count is the placeholder -1, and the account
    age is not negative when the first activity is not after the call. *)
Theorem wallet_age_is_unit_independent
    (inSeconds inMillis : string -> option Z) (now : Z) (address : string)
    (t : Z)
    (Hrange : 10000000 <= t < 10000000000)
    (Hsec : inSeconds address = Some t)
    (Hms : inMillis address = Some (t * 1000)) :
  fetchWalletStats inSeconds now address false
  = fetchWalletStats inMillis now address false /\
  exists w, fetchWalletStats inSeconds now address false = Some w /\
    totalTrades w = -1 /\
    (accountAgeDays w == inject_Z (now - t * 1000) / 86400000)%Q /\
    (t * 1000 <= now -> (0 <= accountAgeDays w)%Q).
Proof.
  unfold fetchWalletStats. rewrite Hsec, Hms.
  replace (t <? 10000000000) with true by (symmetry; apply Z.ltb_lt; lia).
  replace (t * 1000 <? 10000000000) with false by (symmetry; apply Z.ltb_ge; lia).
  split; [done|]. eexists. split; [reflexivity|]. cbn [totalTrades accountAgeDays].
  split; [done|]. split; [reflexivity|]. intros Hle.
  apply Qle_shift_div_l; [done|]. rewrite Qmult_0_l.
  change 0%Q with (inject_Z 0). rewrite <- Zle_Qle. lia.
Qed.

Lemma wallet_age_is_unit_independent_witness :
  fetchWalletStats (fun _ => Some 1699999000) demoNow "0xfeed" false
  = fetchWalletStats (fun _ => Some (1699999000 * 1000)) demoNow "0xfeed" false.
Proof.
  apply (wallet_age_is_unit_independent (fun _ => Some 1699999000)
           (fun _ => Some (1699999000 * 1000)) demoNow "0xfeed" 1699999000);
    [lia|reflexivity|reflexivity].
Defined.

(** ** Processed ids and counted observations *)

Lemma observedTotal_insert (ref : gmap string MarketStats) m stats :
  observedTotal (<[m := stats]> ref)
  = count stats + observedTotal ref - default 0 (count <$> ref !! m).
Proof.
  unfold observedTotal.
  destruct (ref !! m) as [old|] eqn:E; simpl.
  - rewrite <- (insert_delete_id ref m old) at 2 by done.
    rewrite <- insert_delete_eq.
    rewrite !map_fold_insert_L; try (by rewrite lookup_delete_eq); try (intros; lia).
  - rewrite map_fold_insert_L; try done; try (intros; lia).
Qed.

Lemma observedTotal_update now m x ref :
  observedTotal (snd (updateMarketStats now m x ref)) = observedTotal ref + 1.
Proof.
  unfold updateMarketStats. cbn [snd]. rewrite observedTotal_insert.
  cbn [count]. destruct (ref !! m); simpl; lia.
Qed.

(** ** The demo simulation tab *)

Section BacktestFacts.

Variable Math_sqrt : Q -> Q.
Variable simulationMode : bool.
Variable holders : string -> option (list string).
Variable firstSeen : string -> option Z.
Variable analyze : Trade -> PolymarketMarket -> list string ->
                   option WalletStats -> completion GeminiAnalysisResponse.

Abbreviation click :=
  (backtestClick Math_sqrt simulationMode holders firstSeen analyze).

Lemma backtestClick_marks clickedAt now markets st :
  "sim-maduro-whale"%string
  ∈ processedTradeIds (snd (click clickedAt now markets st)).
Proof.
  unfold backtestClick. destruct (head markets) as [market|].
  - rewrite evaluateTrade_processed. set_solver.
  - case_bool_decide as H; [exact H|]. simpl. set_solver.
Qed.

(** X23.  The demo trade has a fixed id and the set of processed ids is
    never cleared, so the demo simulation yields its alert at most once:
    whatever the first click did, every later click returns nothing and
    changes nothing, with any market list and at any time.  Without a loaded
    market (as in simulation mode, where the market list is empty) the click
    never yields an alert: it throws at [market.id], after the id has been
    marked. *)
Theorem demo_simulation_runs_once
    (clickedAt now clickedAt' now' : Z) (markets markets' : list PolymarketMarket)
    (st : AppState) :
  let first := click clickedAt now markets st in
  click clickedAt' now' markets' (snd first) = (Returns None, snd first) /\
  (markets = [] ->
   (forall a, fst first <> Returns (Some a)) /\
   ("sim-maduro-whale"%string ∉ processedTradeIds st ->
    exists e, fst first = Throws e) /\
   marketStatsRef (snd first) = marketStatsRef st).
Proof.
  cbv zeta. split.
  - pose proof (backtestClick_marks clickedAt now markets st) as Hin.
    destruct (click clickedAt now markets st) as [c st1]. cbn [snd] in *.
    unfold backtestClick. destruct (head markets') as [market|].
    + by apply evaluateTrade_seen.
    + by rewrite bool_decide_eq_true_2.
  - intros ->. unfold backtestClick. cbn [head].
    case_bool_decide as H; cbn [fst snd marketStatsRef].
    + split; [done|]. split; [|done]. intros Hn. by destruct Hn.
    + split; [done|]. split; [|done]. intros _. by eexists.
Qed.

End BacktestFacts.

(** ** The evaluations of a session *)



Section SessionFacts.

Variable Math_sqrt : Q -> Q.

Abbreviation session := (runSession Math_sqrt).
Abbreviation deficit st :=
  (Z.of_nat (base.size (processedTradeIds st)) - observedTotal (marketStatsRef st)).

Lemma evaluateTrade_deficit simulationMode holders firstSeen now analyze
    trade market st :
  deficit (snd (evaluateTrade Math_sqrt simulationMode holders firstSeen now
                  analyze trade market st))
  = deficit st.
Proof.
  destruct (decide (trade_id trade ∈ processedTradeIds st)) as [H|H].
  - by rewrite evaluateTrade_seen.
  - rewrite evaluateTrade_processed, evaluateTrade_stats by done.
    rewrite observedTotal_update.
    rewrite size_union by set_solver. rewrite size_singleton. lia.
Qed.


(** One call leaves the deficit as it is, except a demo click without a
    market on a fresh demo id, which raises it by one. *)
Lemma act_deficit a st :
  deficit st <= deficit (snd (act Math_sqrt a st)) /\
  ((forall env clickedAt, a <> DemoClick env clickedAt []) ->
   deficit (snd (act Math_sqrt a st)) = deficit st) /\
  (forall env clickedAt, a = DemoClick env clickedAt [] ->
   "sim-maduro-whale"%string ∉ processedTradeIds st ->
   deficit (snd (act Math_sqrt a st)) = deficit st + 1).
Proof.
  destruct a as [env ms t|env c ms]; cbn [act].
  - assert (E : deficit (snd (evaluateCandidate Math_sqrt (env_simulationMode env)
                  (env_holders env) (env_firstSeen env) (env_now env)
                  (env_analyze env) ms t st)) = deficit st).
    { unfold evaluateCandidate. destruct (List.find _ ms) as [market|]; [|done].
      apply evaluateTrade_deficit. }
    rewrite E. split; [lia|]. split; [done|]. by intros ? ? [=].
  - unfold backtestClick. destruct ms as [|market ms]; cbn [head].
    + case_bool_decide as Hin; cbn [snd processedTradeIds marketStatsRef].
      * split; [lia|]. split; [intros Hne; by destruct (Hne env c)|].
        intros _ _ _ Hnew. by destruct Hnew.
      * change (trade_id (generateBacktestScenario c))
          with "sim-maduro-whale"%string in *.
        rewrite size_union by set_solver. rewrite size_singleton.
        split; [lia|]. split; [intros Hne; by destruct (Hne env c)|].
        intros _ _ _ _. lia.
    + rewrite evaluateTrade_deficit. split; [lia|]. split; [done|].
      by intros ? ? [=].
Qed.

Lemma runSession_app (before after : list Action) (st : AppState) :
  session (before ++ after) st
  = (fst (session before st) ++ fst (session after (snd (session before st))),
     snd (session after (snd (session before st)))).
Proof.
  revert st. induction before as [|a before IH]; intros st.
  - cbn. by destruct (runSession _ after st).
  - cbn [app runSession]. destruct (act Math_sqrt a st) as [c st1].
    rewrite IH. destruct (runSession _ before st1) as [alerts st2]. cbn [fst snd].
    by destruct c as [[x|]|].
Qed.


Lemma session_deficit actions : forall st,
  deficit st <= deficit (snd (session actions st)) /\
  ((forall env clickedAt, DemoClick env clickedAt [] ∉ actions) ->
   deficit (snd (session actions st)) = deficit st).
Proof.
  induction actions as [|a actions IH]; intros st.
  - cbn [runSession snd]. split; [lia|done].
  - cbn [runSession]. destruct (act_deficit a st) as (Hle & Heq & _).
    destruct (act Math_sqrt a st) as [c st1]. cbn [snd] in *.
    destruct (IH st1) as [Hle1 Heq1].
    destruct (runSession _ actions st1) as [alerts st2]. cbn [snd] in *.
    split; [lia|]. intros Hno.
    rewrite Heq1, Heq; [done| |].
    + intros env k ->. apply (Hno env k). left.
    + intros env k Hin. apply (Hno env k). by right.
Qed.

(** X22.  Over the evaluations of a session, in any order and with any
    answers of the endpoints, the observation counts of all markets never
    exceed the number of processed trade ids.  They are equal as long as no
    demo click ran without a loaded market: every processed id was then
    counted in the statistics exactly once, whether or not its evaluation
    produced an alert or threw.  A demo click without a market on a fresh
    demo id marks the id and counts nothing, and from then on the counts
    stay below the number of processed ids. *)
Theorem counted_observations_never_exceed_processed_ids
    (actions : list Action) :
  let st := snd (session actions initialState) in
  observedTotal (marketStatsRef st)
    <= Z.of_nat (base.size (processedTradeIds st)) /\
  ((forall env clickedAt, DemoClick env clickedAt [] ∉ actions) ->
   observedTotal (marketStatsRef st)
   = Z.of_nat (base.size (processedTradeIds st))) /\
  (forall before after env clickedAt,
     actions = before ++ DemoClick env clickedAt [] :: after ->
     "sim-maduro-whale"%string
       ∉ processedTradeIds (snd (session before initialState)) ->
     observedTotal (marketStatsRef st)
     < Z.of_nat (base.size (processedTradeIds st))).
Proof.
  cbv zeta.
  assert (H0 : deficit initialState = 0) by reflexivity.
  destruct (session_deficit actions initialState) as [Hle Heq].
  split; [lia|]. split; [intros Hno; specialize (Heq Hno); lia|].
  intros before after env c -> Hnew.
  rewrite runSession_app. cbn [snd].
  destruct (session_deficit before initialState) as [Hb _].
  set (st1 := snd (session before initialState)) in *.
  change (DemoClick env c [] :: after) with ([DemoClick env c []] ++ after).
  rewrite runSession_app. cbn [snd].
  destruct (act_deficit (DemoClick env c []) st1) as (_ & _ & Hclick).
  specialize (Hclick env c eq_refl Hnew).
  assert (E : snd (session [DemoClick env c []] st1)
              = snd (act Math_sqrt (DemoClick env c []) st1)).
  { cbn [runSession]. by destruct (act _ _ _) as [[[x|]|] st2]. }
  rewrite E.
  destruct (session_deficit after (snd (act Math_sqrt (DemoClick env c []) st1)))
    as [Ha _].
  lia.
Qed.



End SessionFacts.


(** ** The dynamic z-score as a number *)




